(** * desr: scaling symmetries of ODE systems (ode_system.py)

    A shallow embedding of [ode_system.py].  The module is Python 2 code that
    talks to three collaborators:

    - sympy (symbols, expressions, [cancel], [as_numer_denom],
      [as_coeff_add], [sympify], [var]);
    - numpy (arrays, [hstack], [zeros], slicing, [all]);
    - the sibling modules [sympy_helper] and [hermite_helper]
      ([monomial_to_powers], [expressions_to_variables],
      [unique_array_stable], [hnf_row], [INT_TYPE_DEF]).

    numpy is modelled concretely on integer arrays of one and two
    dimensions.  sympy and the two helper modules are interfaces (type
    classes): every function of [ode_system.py] is written once, over any
    implementation of them.  A small implementation, [Mono], runs the
    functions on examples. *)

From Stdlib Require Import ZArith QArith Qreduction String Ascii List Permutation Sorted Lia.
From stdpp Require Import base decidable option list sorting strings pretty.
Import ListNotations.

Local Open Scope Z_scope.
Local Open Scope string_scope.
Local Open Scope list_scope.

(** ** Python exceptions and the error monad *)

Inductive exn :=
| AssertionError
| ValueError (msg : string)
| AttributeError
| IndexError
| LibraryError (msg : string).

Inductive result (A : Type) :=
| Ok (a : A)
| Raise (e : exn).
Arguments Ok {A} a.
Arguments Raise {A} e.

Definition bind {A B} (m : result A) (k : A -> result B) : result B :=
  match m with
  | Ok a => k a
  | Raise e => Raise e
  end.

Notation "x <- m ;; k" := (bind m (fun x => k))
  (at level 100, m at next level, right associativity).
Notation "'assert!' b ;; k" := (if b then k else Raise AssertionError)
  (at level 100, b at next level, right associativity).

(** [[f(x) for x in xs]] with a body that may raise: left to right, the first
    exception wins. *)
Fixpoint mapM {A B} (f : A -> result B) (xs : list A) : result (list B) :=
  match xs with
  | [] => Ok []
  | x :: xs' => y <- f x ;; ys <- mapM f xs' ;; Ok (y :: ys)
  end.

(** ** numpy arrays of integers, one or two dimensions *)

(** [Arr1 d] has shape [(len d,)]; [Arr2 c rows] has shape [(len rows, c)].
    The entries are the integers stored; the element type of the array
    ([INT_TYPE_DEF], a float for [numpy.zeros]) is not part of the model. *)
Inductive ndarray :=
| Arr1 (data : list Z)
| Arr2 (ncols : nat) (rows : list (list Z)).

(** Every row of a two-dimensional array has [ncols] entries. *)
Definition well_shaped (a : ndarray) : Prop :=
  match a with
  | Arr1 _ => True
  | Arr2 c rows => Forall (fun r => length r = c) rows
  end.

(** [a.shape[0]] *)
Definition shape0 (a : ndarray) : nat :=
  match a with
  | Arr1 d => length d
  | Arr2 _ rows => length rows
  end.

(** [a.shape[1]]: the shape of a one-dimensional array is a 1-tuple. *)
Definition shape1 (a : ndarray) : result nat :=
  match a with
  | Arr1 _ => Raise IndexError
  | Arr2 c _ => Ok c
  end.

(** [numpy.array(l, dtype=INT_TYPE_DEF)] on a list of lists.  The empty list
    gives the one-dimensional array of shape [(0,)].  [fits] says which
    integers the element type holds. *)
Definition numpy_array (fits : Z -> bool) (l : list (list Z)) : result ndarray :=
  match l with
  | [] => Ok (Arr1 [])
  | r :: _ =>
      if forallb (fun r' => Nat.eqb (length r') (length r)) l then
        if forallb (forallb fits) l then Ok (Arr2 (length r) l)
        else Raise (LibraryError "OverflowError")
      else Raise (ValueError "setting an array element with a sequence.")
  end.

(** Column [j] of a list of rows. *)
Definition column (j : nat) (rows : list (list Z)) : list Z :=
  map (fun r => nth j r 0) rows.

(** [a.T]: a one-dimensional array is its own transpose. *)
Definition transpose (a : ndarray) : ndarray :=
  match a with
  | Arr1 d => Arr1 d
  | Arr2 c rows => Arr2 (length rows) (map (fun j => column j rows) (seq 0 c))
  end.

(** [numpy.zeros((r, c))] *)
Definition numpy_zeros (r c : nat) : ndarray :=
  Arr2 c (repeat (repeat 0 c) r).

Definition is_arr1 (a : ndarray) : bool :=
  match a with Arr1 _ => true | Arr2 _ _ => false end.

Definition arr1_data (a : ndarray) : list Z :=
  match a with Arr1 d => d | Arr2 _ _ => [] end.

Definition arr2_ncols (a : ndarray) : nat :=
  match a with Arr1 _ => 0%nat | Arr2 c _ => c end.

Definition arr2_rows (a : ndarray) : list (list Z) :=
  match a with Arr1 _ => [] | Arr2 _ rows => rows end.

(** Row [i] of the side-by-side concatenation of two-dimensional blocks. *)
Definition hstack_row (blocks : list ndarray) (i : nat) : list Z :=
  concat (map (fun b => nth i (arr2_rows b) []) blocks).

(** [numpy.hstack(arrs)]: the dimension of the first array decides the axis
    ([concatenate(arrs, 0)] for one dimension, [concatenate(arrs, 1)]
    otherwise); [concatenate] wants at least one array, all of the same
    dimension, and equal sizes off the axis. *)
Definition hstack (arrs : list ndarray) : result ndarray :=
  match arrs with
  | [] => Raise (ValueError "need at least one array to concatenate")
  | Arr1 _ :: _ =>
      if forallb is_arr1 arrs then Ok (Arr1 (concat (map arr1_data arrs)))
      else Raise (ValueError "all the input arrays must have same number of dimensions")
  | Arr2 _ rows :: _ =>
      if forallb (fun a => negb (is_arr1 a)) arrs then
        if forallb (fun a => Nat.eqb (shape0 a) (length rows)) arrs then
          Ok (Arr2 (list_sum (map arr2_ncols arrs))
                   (map (hstack_row arrs) (seq 0 (length rows))))
        else Raise (ValueError "all the input array dimensions except for the concatenation axis must match exactly")
      else Raise (ValueError "all the input arrays must have same number of dimensions")
  end.

(** [for row in a]: the rows of a two-dimensional array, the scalars of a
    one-dimensional one (each seen as a row of one entry). *)
Definition iter_rows (a : ndarray) : list (list Z) :=
  match a with
  | Arr1 d => map (fun x => [x]) d
  | Arr2 _ rows => rows
  end.

(** [numpy.all(row == 0)] *)
Definition all_zero (row : list Z) : bool := forallb (Z.eqb 0) row.

(** [l[-k:]] for [k > 0]: the last [k] items, all of them when [k] exceeds the
    length. *)
Definition last_n {A} (k : nat) (l : list A) : list A :=
  skipn (length l - k) l.

(** [a[-k:]] for [k > 0] *)
Definition slice_last (k : nat) (a : ndarray) : ndarray :=
  match a with
  | Arr1 d => Arr1 (last_n k d)
  | Arr2 c rows => Arr2 c (last_n k rows)
  end.

(** [numpy.all(a == 0)] *)
Definition array_all_zero (a : ndarray) : bool :=
  forallb all_zero (iter_rows a).

(** The integer combination [sum_i u_i * rows_i] of rows of width [c]. *)
Definition lincomb (c : nat) (u : list Z) (rows : list (list Z)) : list Z :=
  map (fun j => fold_right Z.add 0 (zip_with (fun x r => x * nth j r 0) u rows)) (seq 0 c).

(** The matrix product [U . A] of two-dimensional arrays. *)
Definition dot (U A : ndarray) : option ndarray :=
  match U, A with
  | Arr2 cu ru, Arr2 ca ra =>
      if Nat.eqb cu (length ra) then Some (Arr2 ca (map (fun u => lincomb ca u ra) ru))
      else None
  | _, _ => None
  end.

(** ** Python built-ins on lists and strings *)

(** [l.pop()]: the last item and the list without it. *)
Definition pop {A} (l : list A) : result (A * list A) :=
  match last l with
  | Some x => Ok (x, removelast l)
  | None => Raise IndexError
  end.

(** [l.index(x)]: the first position of [x]. *)
Fixpoint index {A} `{EqDecision A} (x : A) (l : list A) : result nat :=
  match l with
  | [] => Raise (ValueError "x not in list")
  | y :: l' => if decide (y = x) then Ok 0%nat else i <- index x l' ;; Ok (S i)
  end.

(** [l[i]] for [i >= 0] *)
Definition getitem {A} (l : list A) (i : nat) : result A :=
  match l !! i with
  | Some x => Ok x
  | None => Raise IndexError
  end.

(** [numpy.array(l)[idx]] for a list of positions, turned back into a
    tuple. *)
Definition fancy_index {A} (l : list A) (idx : list nat) : result (list A) :=
  mapM (getitem l) idx.

(** [[i for i, x in enumerate(l) if p(x)]], counting from [i0]. *)
Fixpoint indices_from {A} (p : A -> bool) (l : list A) (i0 : nat) : list nat :=
  match l with
  | [] => []
  | x :: l' => (if p x then [i0] else []) ++ indices_from p l' (S i0)
  end.

(** [sorted(l, key=key)] with string keys: a stable sort, strings compared
    character by character. *)
Fixpoint insert_by {A} (key : A -> string) (x : A) (l : list A) : list A :=
  match l with
  | [] => [x]
  | y :: l' => if String.leb (key x) (key y) then x :: l else y :: insert_by key x l'
  end.

Definition sorted_by {A} (key : A -> string) (l : list A) : list A :=
  fold_right (insert_by key) [] l.

(** [sorted(l)] on strings *)
Definition sorted (l : list string) : list string := sorted_by id l.

(** The order [sorted] puts strings in. *)
Definition str_le (a b : string) : Prop := String.leb a b = true.

(** Python's whitespace: space, tab, newline, vertical tab, form feed,
    carriage return.  It is also the class [\s] of [re]. *)
Definition is_space (c : ascii) : bool :=
  let n := nat_of_ascii c in
  Nat.eqb n 32 || (Nat.leb 9 n && Nat.leb n 13).

(** The class [[a-zA-Z0-9]] *)
Definition is_alnum (c : ascii) : bool :=
  let n := nat_of_ascii c in
  (Nat.leb 48 n && Nat.leb n 57) || (Nat.leb 65 n && Nat.leb n 90)
  || (Nat.leb 97 n && Nat.leb n 122).

Definition newline : ascii := ascii_of_nat 10.

Fixpoint lstrip (s : string) : string :=
  match s with
  | EmptyString => EmptyString
  | String c s' => if is_space c then lstrip s' else s
  end.

Fixpoint rstrip (s : string) : string :=
  match s with
  | EmptyString => EmptyString
  | String c s' =>
      match rstrip s' with
      | EmptyString => if is_space c then EmptyString else String c EmptyString
      | r => String c r
      end
  end.

(** [s.strip()] *)
Definition strip (s : string) : string := rstrip (lstrip s).

(** [s.split('\n')] *)
Fixpoint split_lines (s : string) : list string :=
  match s with
  | EmptyString => [EmptyString]
  | String c s' =>
      if Ascii.eqb c newline then EmptyString :: split_lines s'
      else match split_lines s' with
           | [] => [String c EmptyString]
           | l :: ls => String c l :: ls
           end
  end.

(** Every character of [s] is in the class [p]. *)
Fixpoint all_chars (p : ascii -> bool) (s : string) : bool :=
  match s with
  | EmptyString => true
  | String c s' => p c && all_chars p s'
  end.

(** [s] is empty or starts with a character outside the class [p]. *)
Definition starts_outside (p : ascii -> bool) (s : string) : bool :=
  match s with
  | EmptyString => true
  | String c _ => negb (p c)
  end.

(** The longest prefix of characters in a class, and the rest. *)
Fixpoint span (p : ascii -> bool) (s : string) : string * string :=
  match s with
  | EmptyString => (EmptyString, EmptyString)
  | String c s' =>
      if p c then let '(a, b) := span p s' in (String c a, b)
      else (EmptyString, s)
  end.

(** [re.match] with the pattern of [parse_de], giving its three groups.  The
    pattern reads: the letter d; group 1, a starred run of [[a-zA-Z0-9]]; the
    two characters /d; group 2, a starred run of [[a-zA-Z0-9]]; a starred
    run of whitespace, a starred run of =, a starred run of whitespace;
    group 3, a starred run of any character but a newline.  Every starred
    item is greedy, and what follows it either starts with a character
    outside its class or matches every string, so the match takes the
    longest run each time. *)
Definition re_match_de (s : string) : option (string * string * string) :=
  match s with
  | String "d" s1 =>
      let '(g1, s2) := span is_alnum s1 in
      match s2 with
      | String "/" (String "d" s3) =>
          let '(g2, s4) := span is_alnum s3 in
          let s5 := snd (span is_space s4) in
          let s6 := snd (span (Ascii.eqb "=") s5) in
          let s7 := snd (span is_space s6) in
          Some (g1, g2, fst (span (fun c => negb (Ascii.eqb c newline)) s7))
      | _ => None
      end
  | _ => None
  end.

(** ** The collaborators *)

(** sympy, as far as [ode_system.py] uses it.  [==] on symbols and on
    expressions is structural, so it is equality of the values here; [str]
    gives the name of a symbol, and two symbols may share a name (they then
    differ in their assumptions). *)
Class Sympy := {
  Symbol : Type;
  Expr : Type;
  Symbol_eq_dec :: EqDecision Symbol;
  Expr_eq_dec :: EqDecision Expr;
  (** [str(symbol)] *)
  str : Symbol -> string;
  (** [sympy.var(name)] *)
  var : string -> result Symbol;
  (** [sympy.sympify(text)] *)
  sympify : string -> result Expr;
  (** [sympy.sympify(n)] for a Python integer *)
  Integer : Z -> Expr;
  (** a symbol used as an expression *)
  symbol_expr : Symbol -> Expr;
  (** [a * b] and [a / b] *)
  mul : Expr -> Expr -> Expr;
  div : Expr -> Expr -> Expr;
  cancel : Expr -> Expr;
  as_numer_denom : Expr -> Expr * Expr;
  as_coeff_add : Expr -> Expr * list Expr;
}.

(** The names imported from [sympy_helper] and [hermite_helper]. *)
Class Helpers `{Sympy} := {
  monomial_to_powers : Expr -> list Symbol -> result (list Z);
  expressions_to_variables : list Expr -> list Symbol;
  unique_array_stable : list Symbol -> list Symbol;
  hnf_row : ndarray -> result (ndarray * ndarray);
  (** which integers the element type [INT_TYPE_DEF] holds *)
  INT_TYPE_DEF : Z -> bool;
}.

(** A Python 2 [dict] from symbols to expressions is kept as the list of its
    items, one per key, in the order the keys were first set.  Iterating a
    dict follows its hash table, not that order: [dict_order] is the order
    the interpreter gives, some rearrangement of the items. *)
Class PyDict `{Sympy} := {
  dict_order : list (Symbol * Expr) -> list (Symbol * Expr);
}.

(** What every interpreter guarantees of that order: the items come out once
    each. *)
Definition dict_order_lawful `{Sympy} `{!PyDict} : Prop :=
  forall d, Permutation (dict_order d) d.

Section OdeSystem.
Context `{Sym : Sympy} `{!Helpers} `{!PyDict}.

(** *** dict *)

(** [d[k] = v] *)
Fixpoint dict_set (k : Symbol) (v : Expr) (d : list (Symbol * Expr)) : list (Symbol * Expr) :=
  match d with
  | [] => [(k, v)]
  | (k', v') :: d' => if decide (k' = k) then (k', v) :: d' else (k', v') :: dict_set k v d'
  end.

(** [dict(pairs)]: a later pair replaces the value of an earlier one with the
    same key. *)
Definition dict (pairs : list (Symbol * Expr)) : list (Symbol * Expr) :=
  fold_left (fun d kv => dict_set kv.1 kv.2 d) pairs [].

(** [d.get(k)] *)
Fixpoint dict_get (k : Symbol) (d : list (Symbol * Expr)) : option Expr :=
  match d with
  | [] => None
  | (k', v) :: d' => if decide (k' = k) then Some v else dict_get k d'
  end.

(** [d.iteritems()], [d.keys()], [d.values()] *)
Definition iteritems (d : list (Symbol * Expr)) : list (Symbol * Expr) := dict_order d.
Definition keys (d : list (Symbol * Expr)) : list Symbol := map fst (dict_order d).
Definition values (d : list (Symbol * Expr)) : list Expr := map snd (dict_order d).

(** *** class ODESystem *)

(** The three attributes of an instance; a derivative that is not specified
    is [None]. *)
Record ODESystem := {
  _variables : list Symbol;
  _derivatives : list (option Expr);
  _indep_var : Symbol;
}.

Definition indep_var (self : ODESystem) : Symbol := _indep_var self.

Definition variables (self : ODESystem) : list Symbol := _variables self.

Definition derivatives (self : ODESystem) : list Expr :=
  map (fun expr => match expr with Some e => e | None => Integer 0 end) (_derivatives self).

(** [filter(lambda x: x[1] is not None, pairs)] *)
Definition filter_specified (pairs : list (Symbol * option Expr)) : list (Symbol * Expr) :=
  flat_map (fun x => match x.2 with Some e => [(x.1, e)] | None => [] end) pairs.

Definition derivative_dict (self : ODESystem) : list (Symbol * Expr) :=
  dict (filter_specified (zip (variables self) (_derivatives self))).

(** [sympy.var('t') if indep_var is None else indep_var] *)
Definition indep_or_default (indep_var0 : option Symbol) : result Symbol :=
  match indep_var0 with
  | None => var "t"
  | Some v => Ok v
  end.

Definition __init__ (variables0 : list Symbol) (derivatives0 : list (option Expr))
    (indep_var0 : option Symbol) : result ODESystem :=
  iv <- indep_or_default indep_var0 ;;
  let self := {| _variables := variables0; _derivatives := derivatives0; _indep_var := iv |} in
  assert! bool_decide (indep_var self ∈ _variables self) ;;
  assert! Nat.eqb (length (_variables self)) (length (_derivatives self)) ;;
  i <- index (indep_var self) (variables self) ;;
  d <- getitem (derivatives self) i ;;
  assert! bool_decide (d = Integer 1) ;;
  Ok self.

(** *** rational_expr_to_power_matrix *)

Definition rational_expr_to_power_matrix (expr : Expr) (variables0 : list Symbol)
    : result ndarray :=
  let expr := cancel expr in
  let '(num, denom) := as_numer_denom expr in
  let '(num_const, num_terms) := as_coeff_add num in
  let '(denom_const, denom_terms) := as_coeff_add denom in
  choice <-
    (if decide (denom_const <> Integer 0) then
       Ok (Integer 1,
           (if decide (num_const <> Integer 0) then num_terms ++ [num_const] else num_terms),
           denom_terms)
     else if decide (num_const <> Integer 0) then
       Ok (Integer 1, num_terms, denom_terms)
     else
       popped <- pop denom_terms ;;
       Ok (popped.1, num_terms, popped.2)) ;;
  let '(ref_power, num_terms, denom_terms) := choice in
  powers <- mapM (fun mon => monomial_to_powers (div mon ref_power) variables0)
                 (num_terms ++ denom_terms) ;;
  powers <- numpy_array INT_TYPE_DEF powers ;;
  Ok (transpose powers).

(** The terms [terms] divided by the reference [ref_power], their exponent
    vectors taken and set side by side as the columns of a matrix. *)
Definition exponent_columns (ref_power : Expr) (terms : list Expr) (variables0 : list Symbol)
    : result ndarray :=
  powers <- mapM (fun mon => monomial_to_powers (div mon ref_power) variables0) terms ;;
  powers <- numpy_array INT_TYPE_DEF powers ;;
  Ok (transpose powers).

(** *** power_matrix and maximal_scaling_matrix *)

(** The block of one item [(var, expr)] of the derivative mapping: the power
    matrix of [indep_var * expr / var]. *)
Definition block (self : ODESystem) (item : Symbol * Expr) : result ndarray :=
  rational_expr_to_power_matrix
    (div (mul (symbol_expr (_indep_var self)) item.2) (symbol_expr item.1))
    (_variables self).

(** The blocks of [items], in that order, stacked side by side and checked
    for their number of rows. *)
Definition stacked_blocks (self : ODESystem) (items : list (Symbol * Expr)) : result ndarray :=
  matrices <- mapM (block self) items ;;
  out <- hstack matrices ;;
  assert! Nat.eqb (shape0 out) (length (_variables self)) ;;
  Ok out.

(** The reading of the spec: the blocks follow the order of the variables,
    those without a derivative left out. *)
Definition power_matrix_in_variable_order (self : ODESystem) : result ndarray :=
  stacked_blocks self (filter_specified (zip (_variables self) (_derivatives self))).

Definition power_matrix (self : ODESystem) : result ndarray :=
  let exprs := map (fun item => div (mul (symbol_expr (_indep_var self)) item.2)
                                    (symbol_expr item.1))
                   (iteritems (derivative_dict self)) in
  matrices <- mapM (fun expr => rational_expr_to_power_matrix expr (variables self)) exprs ;;
  out <- hstack matrices ;;
  assert! Nat.eqb (shape0 out) (length (variables self)) ;;
  Ok out.

Definition maximal_scaling_matrix (self : ODESystem) : result ndarray :=
  power_matrix0 <- power_matrix self ;;
  hm <- hnf_row power_matrix0 ;;
  let '(hermite_rform, multiplier_rform) := hm in
  let row_is_zero := map all_zero (iter_rows hermite_rform) in
  let num_nonzero := list_sum (map Nat.b2n row_is_zero) in
  if Nat.eqb num_nonzero 0 then Ok (numpy_zeros 1 (length (variables self)))
  else
    assert! array_all_zero (slice_last num_nonzero hermite_rform) ;;
    ncols <- shape1 multiplier_rform ;;
    assert! Nat.eqb ncols (length (variables self)) ;;
    Ok (slice_last num_nonzero multiplier_rform).

(** What [hnf_row] promises of its answer [(H, U)] on the matrix [A]: [U] is a
    matrix and [U . A = H]. *)
Definition hnf_row_contract (A : ndarray) : Prop :=
  forall H U, hnf_row A = Ok (H, U) -> well_shaped U /\ dot U A = Some H.

(** *** reorder_variables *)

(** The method changes [self] in place: it is a function from the instance
    before the call to the outcome and the instance after it. *)
Definition reorder_variables (variables0 : list Symbol) (self : ODESystem)
    : result unit * ODESystem :=
  if bool_decide (sorted (map str variables0) = sorted (map str (variables self))) then
    let column_shuffle :=
      flat_map (fun new_var =>
                  indices_from (fun v => bool_decide (str v = str new_var)) (variables self) 0)
               variables0 in
    match fancy_index (_variables self) column_shuffle with
    | Raise e => (Raise e, self)
    | Ok vs =>
        let self1 := {| _variables := vs; _derivatives := _derivatives self;
                        _indep_var := _indep_var self |} in
        match fancy_index (_derivatives self1) column_shuffle with
        | Raise e => (Raise e, self1)
        | Ok ds =>
            (Ok tt, {| _variables := vs; _derivatives := ds;
                       _indep_var := _indep_var self |})
        end
    end
  else (Raise AssertionError, self).

(** *** parse_de and from_equations *)

Definition parse_de (diff_eq : string) (indep_var0 : string) : result (Symbol * Expr) :=
  let diff_eq := strip diff_eq in
  match re_match_de diff_eq with
  | None => Raise AttributeError
  | Some (g1, g2, g3) =>
      if decide (g2 <> indep_var0) then
        Raise (ValueError ("We only work in ordinary DEs in " ++ indep_var0))
      else
        v <- var g1 ;;
        e <- sympify g3 ;;
        Ok (v, e)
  end.

(** [equations] is a text or a list of lines; [indep_var0 = None] stands for
    the default argument [sympy.var('t')].  [parse_de] is mapped with its own
    default independent variable ['t'], and the class is called without
    [indep_var]. *)
Definition equation_lines (equations : string + list string) : list string :=
  match equations with
  | inl text => split_lines (strip text)
  | inr lines => lines
  end.

Definition from_equations (equations : string + list string) (indep_var0 : option Symbol)
    : result ODESystem :=
  iv <- indep_or_default indep_var0 ;;
  let equations := equation_lines equations in
  pairs <- mapM (fun line => parse_de line "t") equations ;;
  let equations := dict pairs in
  let variables0 := sorted_by str (keys equations) ++ [iv]
                    ++ sorted_by str (expressions_to_variables (values equations)) in
  let variables0 := unique_array_stable variables0 in
  assert! bool_decide (dict_get iv equations = None) ;;
  let equations := dict_set iv (Integer 1) equations in
  __init__ variables0 (map (fun v => dict_get v equations) variables0) None.

End OdeSystem.

(** ** Mono: the collaborators on monomials

    An implementation of the interfaces on the expressions [c * x1^e1 * ... *
    xk^ek] with a rational coefficient and integer exponents, which products
    and quotients never leave.  On these sympy's [cancel] changes nothing,
    [as_numer_denom] splits the positive from the negative exponents, and
    [as_coeff_add] gives a number back as the constant and anything else as
    one term.  [Undefined] stands for what sympy answers to a division by
    zero. *)
Module Mono.

Record symbol := Sym { sym_name : string; sym_assumptions : list (string * bool) }.

Inductive expr :=
| Undefined
| Mon (coeff : Q) (powers : list (symbol * Z)).

#[export] Instance symbol_eq_dec : EqDecision symbol.
Proof. solve_decision. Defined.

#[export] Instance Q_eq_dec : EqDecision Q.
Proof. solve_decision. Defined.

#[export] Instance expr_eq_dec : EqDecision expr.
Proof. solve_decision. Defined.

Fixpoint exponent (s : symbol) (p : list (symbol * Z)) : Z :=
  match p with
  | [] => 0
  | (s', e) :: p' => if decide (s' = s) then e else exponent s p'
  end.

Fixpoint add_power (s : symbol) (e : Z) (p : list (symbol * Z)) : list (symbol * Z) :=
  match p with
  | [] => if Z.eqb e 0 then [] else [(s, e)]
  | (s', e') :: p' =>
      if decide (s' = s) then
        if Z.eqb (e' + e) 0 then p' else (s', e' + e) :: p'
      else (s', e') :: add_power s e p'
  end.

Definition mul_powers (p q : list (symbol * Z)) : list (symbol * Z) :=
  fold_left (fun acc se => add_power se.1 se.2 acc) q p.

Definition mk (c : Q) (p : list (symbol * Z)) : expr :=
  if Qeq_bool c 0 then Mon 0 [] else Mon (Qred c) p.

Definition of_Z (z : Z) : expr := mk (inject_Z z) [].

Definition of_symbol (s : symbol) : expr := Mon 1 [(s, 1)].

Definition m_mul (a b : expr) : expr :=
  match a, b with
  | Mon c p, Mon d q => mk (c * d) (mul_powers p q)
  | _, _ => Undefined
  end.

Definition m_div (a b : expr) : expr :=
  match a, b with
  | Mon c p, Mon d q =>
      if Qeq_bool d 0 then Undefined
      else mk (c / d) (mul_powers p (map (fun se => (se.1, - se.2)) q))
  | _, _ => Undefined
  end.

Definition m_as_numer_denom (e : expr) : expr * expr :=
  match e with
  | Undefined => (Undefined, of_Z 1)
  | Mon c p =>
      (mk (inject_Z (Qnum c)) (filter (fun se => 0 < se.2) p),
       mk (inject_Z (Zpos (Qden c)))
          (map (fun se => (se.1, - se.2)) (filter (fun se => se.2 < 0) p)))
  end.

Definition m_as_coeff_add (e : expr) : expr * list expr :=
  match e with
  | Mon _ [] => (e, [])
  | _ => (of_Z 0, [e])
  end.

Definition is_digit (c : ascii) : bool :=
  let n := nat_of_ascii c in Nat.leb 48 n && Nat.leb n 57.

Fixpoint decimal (acc : Z) (s : string) : Z :=
  match s with
  | EmptyString => acc
  | String c s' => decimal (10 * acc + Z.of_nat (nat_of_ascii c - 48)) s'
  end.

Definition m_var (name : string) : result symbol :=
  match name with
  | EmptyString => Raise (ValueError "no symbols given")
  | _ => Ok (Sym name [])
  end.

(** Numerals and names are the texts this [sympify] reads. *)
Definition m_sympify (text : string) : result expr :=
  match text with
  | EmptyString => Raise (LibraryError "SympifyError")
  | String c _ =>
      if all_chars is_digit text then Ok (of_Z (decimal 0 text))
      else if all_chars is_alnum text && negb (is_digit c) then Ok (of_symbol (Sym text []))
      else Raise (LibraryError "SympifyError")
  end.

#[export] Instance sympy : Sympy := {|
  Symbol := symbol;
  Expr := expr;
  str := sym_name;
  var := m_var;
  sympify := m_sympify;
  Integer := of_Z;
  symbol_expr := of_symbol;
  mul := m_mul;
  div := m_div;
  cancel := fun e => e;
  as_numer_denom := m_as_numer_denom;
  as_coeff_add := m_as_coeff_add;
|}.

(** Modelled from the spec: [monomial_to_powers] of [sympy_helper] gives, for
    each variable of the list in turn, its exponent in the monomial, 0 when
    it is absent; the coefficient is dropped. *)
Definition m_monomial_to_powers (mon : expr) (vars : list symbol) : result (list Z) :=
  match mon with
  | Undefined => Raise (LibraryError "malformed monomial")
  | Mon _ p => Ok (map (fun v => exponent v p) vars)
  end.

Fixpoint dedup_stable (seen l : list symbol) : list symbol :=
  match l with
  | [] => []
  | x :: l' =>
      if bool_decide (x ∈ seen) then dedup_stable seen l'
      else x :: dedup_stable (x :: seen) l'
  end.

Definition expr_symbols (e : expr) : list symbol :=
  match e with
  | Undefined => []
  | Mon _ p => map fst p
  end.

(** The helpers, for a given [hnf_row]. *)
Definition helpers (hnf : ndarray -> result (ndarray * ndarray)) : Helpers := {|
  monomial_to_powers := m_monomial_to_powers;
  expressions_to_variables := fun es => dedup_stable [] (flat_map expr_symbols es);
  unique_array_stable := dedup_stable [];
  hnf_row := hnf;
  INT_TYPE_DEF := fun _ => true;
|}.

(** Two interpreters: one iterates a dict in the order the keys were set, one
    in the opposite order. *)
#[export] Instance insertion_order : PyDict := {| dict_order := fun d => d |}.
Definition reverse_order : PyDict := {| dict_order := fun d => rev d |}.

Definition t : symbol := Sym "t" [].
Definition x : symbol := Sym "x" [].
Definition y : symbol := Sym "y" [].

(** [hnf_row] on the power matrices of the examples below. *)
Definition hnf_table (a : ndarray) : result (ndarray * ndarray) :=
  match a with
  | Arr2 2 [[0; 0]; [1; 0]] => Ok (Arr2 2 [[1; 0]; [0; 0]], Arr2 2 [[0; 1]; [1; 0]])
  | Arr2 2 [[0; 0]; [0; 1]] => Ok (Arr2 2 [[0; 1]; [0; 0]], Arr2 2 [[0; 1]; [1; 0]])
  | _ => Raise (LibraryError "not tabulated")
  end.

#[export] Instance table_helpers : Helpers := helpers hnf_table.

(** The system [dx/dt = x] over the variables [(x, t)]. *)
Definition growth : ODESystem :=
  {| _variables := [x; t];
     _derivatives := [Some (of_symbol x); Some (of_Z 1)];
     _indep_var := t |}.

(** The scaling matrix of [growth]: [x] scales, [t] does not. *)
Definition growth_scaling : ndarray := Arr2 2 [[1; 0]].

(** The system [dx/dt = 0] over the variables [(x, t)]. *)
Definition constant : ODESystem :=
  {| _variables := [x; t];
     _derivatives := [Some (of_Z 0); Some (of_Z 1)];
     _indep_var := t |}.

(** A system that lists the variable [x] twice. *)
Definition twice : ODESystem :=
  {| _variables := [x; x; t];
     _derivatives := [None; None; Some (of_Z 1)];
     _indep_var := t |}.

End Mono.

(** ** Printing *)

(** [str(expr)] of sympy. *)
Class SympyStr `{Sympy} := {
  str_expr : Expr -> string;
}.

Section Repr.
Context `{Sym : Sympy} `{!SympyStr}.

(** ['d{}/d{} = {}'.format(var, self.indep_var, expr)] *)
Definition repr_line (self : ODESystem) (item : Symbol * Expr) : string :=
  "d" +:+ str item.1 +:+ "/d" +:+ str (indep_var self) +:+ " = " +:+ str_expr item.2.

(** [sep.join(lines)] is [String.concat sep lines]. *)
Definition __repr__ (self : ODESystem) : string :=
  let lines := map (repr_line self) (zip (variables self) (derivatives self)) in
  String.concat (String newline EmptyString) lines.

End Repr.

(** The printer of [Mono]: a number in decimal, a product as
    [c*x**e*...], with factors 1 and exponents 1 left out. *)
Module MonoStr.
Import Mono.

Definition str_power (se : symbol * Z) : string :=
  if Z.eqb se.2 1 then sym_name se.1 else sym_name se.1 +:+ "**" +:+ pretty se.2.

Definition str_coeff (c : Q) : string :=
  if Pos.eqb (Qden c) 1 then pretty (Qnum c)
  else pretty (Qnum c) +:+ "/" +:+ pretty (Zpos (Qden c)).

Definition m_str (e : expr) : string :=
  match e with
  | Undefined => "zoo"
  | Mon c [] => str_coeff c
  | Mon c p =>
      (if decide (c = 1%Q) then "" else str_coeff c +:+ "*")
      +:+ String.concat "*" (map str_power p)
  end.

#[export] Instance sympy_str : SympyStr := {| str_expr := m_str |}.

End MonoStr.

(** ** Notions used in the statements *)

(** A block as [power_matrix] wants it: a matrix with [n] rows of [c >= 1]
    entries each. *)
Definition matrix_block (n : nat) (b : ndarray) : Prop :=
  exists c rows, b = Arr2 c rows /\ c <> 0%nat /\ length rows = n
                 /\ Forall (fun r => length r = c) rows.

(** A character that is not a newline. *)
Definition not_newline (c : ascii) : bool := negb (Ascii.eqb c newline).

(** The lines [ls], each followed by a newline. *)
Definition lines_prefix (ls : list string) : string :=
  fold_right (fun l acc => l +:+ String newline acc) EmptyString ls.

(** More systems over [Mono]. *)
Module Samples.
Import Mono.

Definition a : symbol := Sym "a" [].

(** [growth] with its variables in the order [(t, x)]. *)
Definition growth_swapped : ODESystem :=
  {| _variables := [t; x];
     _derivatives := [Some (of_Z 1); Some (of_symbol x)];
     _indep_var := t |}.

(** The instance [from_equations] builds from the line [dx/dt = a]. *)
Definition forced : ODESystem :=
  {| _variables := [x; t; a];
     _derivatives := [Some (of_symbol a); Some (of_Z 1); None];
     _indep_var := t |}.

(** What [from_equations] builds from [dx/dt = a] and [dt/dt = 1] when told
    that the independent variable is [y]. *)
Definition shifted : ODESystem :=
  {| _variables := [t; x; y; a];
     _derivatives := [Some (of_Z 1); Some (of_symbol a); Some (of_Z 1); None];
     _indep_var := t |}.

End Samples.

(** * Facts *)

(** ** The error monad *)

Lemma bind_Ok {A B} (m : result A) (k : A -> result B) (b : B) :
  bind m k = Ok b <-> exists a, m = Ok a /\ k a = Ok b.
Proof.
  destruct m as [a|e]; simpl; split.
  - eauto.
  - intros (a' & Ha & Hk). congruence.
  - discriminate.
  - intros (a' & Ha & _). discriminate.
Qed.

Lemma mapM_Ok_length {A B} (f : A -> result B) (xs : list A) (ys : list B) :
  mapM f xs = Ok ys -> length ys = length xs.
Proof.
  revert ys. induction xs as [|x xs IH]; simpl; intros ys Hm.
  - injection Hm as <-. reflexivity.
  - apply bind_Ok in Hm as (y & _ & Hm). apply bind_Ok in Hm as (ys' & Hys & Hm).
    injection Hm as <-. simpl. f_equal. auto.
Qed.

Lemma mapM_Ok_Forall2 {A B} (f : A -> result B) (xs : list A) (ys : list B) :
  mapM f xs = Ok ys <-> Forall2 (fun x y => f x = Ok y) xs ys.
Proof.
  revert ys. induction xs as [|x xs IH]; simpl; intros ys.
  - split.
    + intros Hm. injection Hm as <-. constructor.
    + intros Hf. inversion Hf. reflexivity.
  - split.
    + intros Hm. apply bind_Ok in Hm as (y & Hy & Hm).
      apply bind_Ok in Hm as (ys' & Hys & Hm). injection Hm as <-.
      constructor; [exact Hy | apply IH, Hys].
    + intros Hf. inversion Hf as [|? y ? ys' Hy Hys]; subst.
      rewrite Hy. simpl. apply IH in Hys. rewrite Hys. reflexivity.
Qed.

Lemma mapM_map {A B C} (f : B -> result C) (g : A -> B) (xs : list A) :
  mapM f (map g xs) = mapM (fun a => f (g a)) xs.
Proof.
  induction xs as [|a xs IH]; simpl; [reflexivity|]. rewrite IH. reflexivity.
Qed.

(** ** Sorting strings *)

Lemma ascii_compare_refl (c : ascii) : Ascii.compare c c = Eq.
Proof. unfold Ascii.compare. apply N.compare_refl. Qed.

Lemma ascii_compare_lt_trans (a b c : ascii) :
  Ascii.compare a b = Lt -> Ascii.compare b c = Lt -> Ascii.compare a c = Lt.
Proof.
  unfold Ascii.compare. rewrite !N.compare_lt_iff. apply N.lt_trans.
Qed.

Lemma string_compare_le_trans (a b c : string) :
  String.compare a b <> Gt -> String.compare b c <> Gt -> String.compare a c <> Gt.
Proof.
  revert b c. induction a as [|x a IH]; intros [|y b] [|z c]; simpl; try congruence.
  destruct (Ascii.compare x y) eqn:Hxy; [| |congruence].
  - apply Ascii.compare_eq_iff in Hxy. subst y.
    destruct (Ascii.compare x z) eqn:Hxz; try congruence. apply IH.
  - destruct (Ascii.compare y z) eqn:Hyz; [| |congruence].
    + apply Ascii.compare_eq_iff in Hyz. subst z. rewrite Hxy. congruence.
    + rewrite (ascii_compare_lt_trans _ _ _ Hxy Hyz). congruence.
Qed.

#[local] Instance str_le_trans : Transitive str_le.
Proof.
  intros a b c. unfold str_le, String.leb.
  pose proof (string_compare_le_trans a b c) as Ht.
  destruct (String.compare a b), (String.compare b c), (String.compare a c);
    try congruence; intros; exfalso; apply Ht; congruence.
Qed.

#[local] Instance str_le_antisym : AntiSymm eq str_le.
Proof. intros a b. apply String.leb_antisym. Qed.

Lemma insert_by_perm {A} (key : A -> string) (x : A) (l : list A) :
  Permutation (insert_by key x l) (x :: l).
Proof.
  induction l as [|y l IH]; simpl; [reflexivity|].
  destruct (String.leb (key x) (key y)); [reflexivity|].
  rewrite IH. apply perm_swap.
Qed.

Lemma sorted_by_perm {A} (key : A -> string) (l : list A) :
  Permutation (sorted_by key l) l.
Proof.
  induction l as [|x l IH]; simpl; [reflexivity|].
  rewrite insert_by_perm. constructor. exact IH.
Qed.

Lemma insert_Sorted (x : string) (l : list string) :
  Sorted str_le l -> Sorted str_le (insert_by id x l).
Proof.
  induction 1 as [|y l Hs IH Hhd]; simpl.
  - repeat constructor.
  - unfold id; destruct (String.leb x y) eqn:Hxy.
    + constructor; [constructor; assumption|]. constructor. exact Hxy.
    + constructor; [exact IH|].
      assert (Hyx : str_le y x).
      { destruct (String.leb_total x y) as [H1|H1]; [congruence|exact H1]. }
      destruct l as [|z l]; simpl; [constructor; exact Hyx|].
      unfold id; destruct (String.leb x z); constructor; [exact Hyx|].
      inversion Hhd; assumption.
Qed.

Lemma sorted_Sorted (l : list string) : Sorted str_le (sorted l).
Proof.
  induction l as [|x l IH]; simpl; [constructor|]. apply insert_Sorted, IH.
Qed.

Lemma sorted_eq_iff_perm (l1 l2 : list string) :
  sorted l1 = sorted l2 <-> Permutation l1 l2.
Proof.
  split.
  - intros Heq. rewrite <- (sorted_by_perm id l1), <- (sorted_by_perm id l2).
    unfold sorted in Heq. rewrite Heq. reflexivity.
  - intros Hp. apply (Sorted_unique str_le); try apply sorted_Sorted.
    unfold sorted. rewrite !sorted_by_perm. exact Hp.
Qed.

Lemma index_Ok {A} `{EqDecision A} (x : A) (l : list A) :
  x ∈ l -> exists i, index x l = Ok i /\ l !! i = Some x.
Proof.
  induction l as [|y l IH]; intros Hin.
  - inversion Hin.
  - simpl. destruct (decide (y = x)) as [->|Hne].
    + exists 0%nat. split; reflexivity.
    + destruct IH as (i & Hi & Hl).
      { inversion Hin; subst; [congruence|assumption]. }
      exists (S i). rewrite Hi. split; [reflexivity|exact Hl].
Qed.

(** ** Strings *)

Lemma span_app (p : ascii -> bool) (a r : string) :
  all_chars p a = true -> starts_outside p r = true -> span p (a +:+ r) = (a, r).
Proof.
  intros Ha Hr. induction a as [|c a IH]; simpl in *.
  - destruct r as [|c r]; simpl in *; [reflexivity|].
    destruct (p c); [discriminate|reflexivity].
  - apply andb_prop in Ha as [Hc Ha]. rewrite Hc, (IH Ha). reflexivity.
Qed.

Lemma lstrip_app (ws s : string) :
  all_chars is_space ws = true -> starts_outside is_space s = true ->
  lstrip (ws +:+ s) = s.
Proof.
  intros Hws Hs. induction ws as [|c ws IH]; simpl in *.
  - destruct s as [|c s]; simpl in *; [reflexivity|].
    destruct (is_space c); [discriminate|reflexivity].
  - apply andb_prop in Hws as [Hc Hws]. rewrite Hc. apply IH, Hws.
Qed.

Lemma rstrip_cons (c : ascii) (s : string) :
  is_space c = false -> rstrip (String c s) = String c (rstrip s).
Proof. intros Hc. simpl. rewrite Hc. destruct (rstrip s); reflexivity. Qed.

Lemma rstrip_app (a r : string) :
  all_chars (fun c => negb (is_space c)) a = true -> rstrip (a +:+ r) = a +:+ rstrip r.
Proof.
  intros Ha. induction a as [|c a IH]; [reflexivity|].
  simpl in Ha. apply andb_prop in Ha as [Hc Ha].
  change (String c a +:+ r) with (String c (a +:+ r)).
  rewrite rstrip_cons by (destruct (is_space c); [discriminate|reflexivity]).
  rewrite (IH Ha). reflexivity.
Qed.

Lemma rstrip_starts_outside (p : ascii -> bool) (r : string) :
  starts_outside p r = true -> starts_outside p (rstrip r) = true.
Proof.
  destruct r as [|c r]; simpl; [reflexivity|]. intros Hc.
  destruct (rstrip r); [destruct (is_space c)|]; simpl; auto.
Qed.

Lemma alnum_not_space (c : ascii) : is_alnum c = true -> is_space c = false.
Proof.
  destruct c as [[] [] [] [] [] [] [] []]; vm_compute; congruence.
Qed.

Lemma all_alnum_not_space (s : string) :
  all_chars is_alnum s = true -> all_chars (fun c => negb (is_space c)) s = true.
Proof.
  induction s as [|c s IH]; simpl; [reflexivity|]. intros Hs.
  apply andb_prop in Hs as [Hc Hs]. rewrite (alnum_not_space c Hc), (IH Hs). reflexivity.
Qed.

(** ** Arrays *)

Lemma all_zero_repeat (l : list Z) : all_zero l = true -> l = repeat 0 (length l).
Proof.
  induction l as [|z l IH]; simpl; [reflexivity|]. intros Hz.
  apply andb_prop in Hz as [Hz Hl]. destruct z; try discriminate.
  f_equal. apply IH, Hl.
Qed.

Lemma lincomb_length (c : nat) (u : list Z) (rows : list (list Z)) :
  length (lincomb c u rows) = c.
Proof. unfold lincomb. rewrite length_map. apply length_seq. Qed.

Lemma zero_combination (n j : nat) (rows : list (list Z)) :
  fold_right Z.add 0 (zip_with (fun x r => x * nth j r 0) (repeat 0 n) rows) = 0.
Proof.
  revert rows. induction n as [|n IH]; intros [|r rows]; simpl; try reflexivity.
  rewrite IH. reflexivity.
Qed.

Lemma lincomb_zero (c n : nat) (rows : list (list Z)) :
  lincomb c (repeat 0 n) rows = repeat 0 c.
Proof.
  unfold lincomb. generalize 0%nat. induction c as [|c IH]; intros s; simpl; [reflexivity|].
  rewrite zero_combination, IH. reflexivity.
Qed.

Lemma last_n_map {A B} (f : A -> B) (k : nat) (l : list A) :
  last_n k (map f l) = map f (last_n k l).
Proof. unfold last_n. rewrite length_map. apply skipn_map. Qed.

Lemma last_n_length {A} (k : nat) (l : list A) :
  (k <= length l)%nat -> length (last_n k l) = k.
Proof. intros Hk. unfold last_n. rewrite length_skipn. lia. Qed.

Lemma last_n_elem_of {A} (k : nat) (l : list A) (x : A) : x ∈ last_n k l -> x ∈ l.
Proof.
  unfold last_n. intros Hx. rewrite <- (firstn_skipn (length l - k) l).
  apply elem_of_app. right. exact Hx.
Qed.

Lemma count_true_le (bs : list bool) : (list_sum (map Nat.b2n bs) <= length bs)%nat.
Proof. induction bs as [|[] bs IH]; simpl; lia. Qed.

(** ** Index lists *)

Lemma mapM_Ok_exists {A B} (f : A -> result B) (xs : list A) :
  Forall (fun x => exists y, f x = Ok y) xs -> exists ys, mapM f xs = Ok ys.
Proof.
  induction 1 as [|x xs [y Hy] _ [ys Hys]]; simpl.
  - eexists. reflexivity.
  - rewrite Hy. simpl. rewrite Hys. simpl. eexists. reflexivity.
Qed.

Lemma fancy_index_Ok {A} (l : list A) (idx : list nat) (r : list A) :
  fancy_index l idx = Ok r <-> Forall2 (fun i x => l !! i = Some x) idx r.
Proof.
  unfold fancy_index. rewrite mapM_Ok_Forall2.
  split; intros Hf; (eapply Forall2_impl; [exact Hf|]); intros i x;
    unfold getitem; destruct (l !! i); congruence.
Qed.

Lemma fancy_index_in_range {A} (l : list A) (idx : list nat) :
  Forall (fun i => (i < length l)%nat) idx -> exists r, fancy_index l idx = Ok r.
Proof.
  intros Hidx. apply mapM_Ok_exists. eapply Forall_impl; [exact Hidx|].
  intros i Hi. simpl in Hi. unfold getitem.
  destruct (lookup_lt_is_Some_2 l i Hi) as [x ->]. eexists. reflexivity.
Qed.

Lemma indices_from_none {A} (p : A -> bool) (l : list A) (i0 : nat) :
  (forall x, x ∈ l -> p x = false) -> indices_from p l i0 = [].
Proof.
  revert i0. induction l as [|y l IH]; intros i0 Hp; simpl; [reflexivity|].
  rewrite (Hp y) by left. rewrite IH; [reflexivity|].
  intros x Hx. apply Hp. right. exact Hx.
Qed.

Lemma indices_from_unique {A} (f : A -> string) (l : list A) (j i0 : nat) (x : A) (nm : string) :
  NoDup (map f l) -> l !! j = Some x -> f x = nm ->
  indices_from (fun v => bool_decide (f v = nm)) l i0 = [(i0 + j)%nat].
Proof.
  revert j i0. induction l as [|y l IH]; intros j i0 Hnd Hj Hx; [discriminate|].
  simpl in Hnd. apply NoDup_cons in Hnd as [Hy Hnd]. simpl.
  destruct j as [|j]; simpl in Hj.
  - injection Hj as ->. rewrite bool_decide_eq_true_2 by exact Hx.
    rewrite indices_from_none.
    + simpl. f_equal. lia.
    + intros z Hz. apply bool_decide_eq_false_2. intros Hfz. apply Hy.
      rewrite Hx, <- Hfz. apply list_elem_of_fmap. exists z. split; [reflexivity|exact Hz].
  - rewrite bool_decide_eq_false_2.
    + simpl. rewrite (IH j (S i0) Hnd Hj Hx). f_equal. lia.
    + intros Hfy. apply Hy. rewrite Hfy, <- Hx. apply list_elem_of_fmap.
      exists x. split; [reflexivity|]. eapply list_elem_of_lookup_2, Hj.
Qed.

Lemma lookup_by_key {A} (f : A -> string) (l : list A) (i j : nat) (x y : A) :
  NoDup (map f l) -> l !! i = Some x -> l !! j = Some y -> f x = f y -> i = j.
Proof.
  intros Hnd Hi Hj Hf. apply (NoDup_lookup (map f l) i j (f x) Hnd).
  - rewrite list_lookup_fmap, Hi. reflexivity.
  - rewrite list_lookup_fmap, Hj, Hf. reflexivity.
Qed.

(** ** dict *)

Section DictFacts.
Context `{Sym : Sympy}.

Lemma dict_set_fresh (k : Symbol) (v : Expr) (d : list (Symbol * Expr)) :
  k ∉ map fst d -> dict_set k v d = d ++ [(k, v)].
Proof.
  induction d as [|[k' v'] d IH]; simpl; intros Hk; [reflexivity|].
  rewrite not_elem_of_cons in Hk. destruct Hk as [Hne Hk].
  destruct (decide (k' = k)); [congruence|]. rewrite (IH Hk). reflexivity.
Qed.

Lemma dict_set_keys (k : Symbol) (v : Expr) (d : list (Symbol * Expr)) (y : Symbol) :
  y ∈ map fst (dict_set k v d) <-> y = k \/ y ∈ map fst d.
Proof.
  induction d as [|[k' v'] d IH]; simpl.
  - rewrite list_elem_of_singleton. split; [auto|]. intros [?|Hn]; [assumption|inversion Hn].
  - destruct (decide (k' = k)) as [->|Hne]; simpl; rewrite !elem_of_cons.
    + tauto.
    + rewrite IH. tauto.
Qed.

Lemma fold_dict_set_keys (l acc : list (Symbol * Expr)) (y : Symbol) :
  y ∈ map fst (fold_left (fun d kv => dict_set kv.1 kv.2 d) l acc)
  <-> y ∈ map fst acc \/ y ∈ map fst l.
Proof.
  revert acc. induction l as [|[k v] l IH]; intros acc; simpl.
  - split; [auto|]. intros [?|Hn]; [assumption|inversion Hn].
  - rewrite IH, dict_set_keys, elem_of_cons. tauto.
Qed.

Lemma dict_keys (l : list (Symbol * Expr)) (y : Symbol) :
  y ∈ map fst (dict l) <-> y ∈ map fst l.
Proof.
  unfold dict. rewrite fold_dict_set_keys. simpl. split; [|auto].
  intros [Hn|?]; [inversion Hn|assumption].
Qed.

Lemma fold_dict_set_NoDup (l acc : list (Symbol * Expr)) :
  NoDup (map fst (acc ++ l)) ->
  fold_left (fun d kv => dict_set kv.1 kv.2 d) l acc = acc ++ l.
Proof.
  revert acc. induction l as [|[k v] l IH]; intros acc Hnd; simpl.
  - rewrite app_nil_r. reflexivity.
  - assert (Hk : k ∉ map fst acc).
    { rewrite map_app in Hnd. apply NoDup_app in Hnd as (_ & Hdisj & _).
      intros Hin. apply (Hdisj k Hin). simpl. left. }
    rewrite (dict_set_fresh k v acc Hk), IH.
    + rewrite <- app_assoc. reflexivity.
    + rewrite <- app_assoc. exact Hnd.
Qed.

Lemma dict_NoDup (l : list (Symbol * Expr)) : NoDup (map fst l) -> dict l = l.
Proof. intros Hnd. unfold dict. rewrite fold_dict_set_NoDup; [reflexivity|exact Hnd]. Qed.

Lemma dict_get_None (k : Symbol) (d : list (Symbol * Expr)) :
  dict_get k d = None <-> k ∉ map fst d.
Proof.
  induction d as [|[k' v'] d IH]; simpl.
  - split; [intros _ Hn; inversion Hn|reflexivity].
  - rewrite not_elem_of_cons. destruct (decide (k' = k)) as [->|Hne].
    + split; [discriminate|]. intros [Hk _]. congruence.
    + rewrite IH. split; [auto|tauto].
Qed.

Lemma dict_get_set (k : Symbol) (v : Expr) (d : list (Symbol * Expr)) :
  dict_get k (dict_set k v d) = Some v.
Proof.
  induction d as [|[k' v'] d IH]; simpl.
  - rewrite decide_True by reflexivity. reflexivity.
  - destruct (decide (k' = k)) as [->|Hne]; simpl.
    + rewrite decide_True by reflexivity. reflexivity.
    + rewrite decide_False by exact Hne. exact IH.
Qed.

Lemma filter_specified_keys (vs : list Symbol) (ds : list (option Expr)) (y : Symbol) :
  y ∈ map fst (filter_specified (zip vs ds))
  <-> exists i e, vs !! i = Some y /\ ds !! i = Some (Some e).
Proof.
  revert ds. induction vs as [|v vs IH]; intros [|d ds]; simpl.
  - split; [intros Hn; inversion Hn|]. intros (i & e & Hi & _). destruct i; discriminate.
  - split; [intros Hn; inversion Hn|]. intros (i & e & Hi & _). destruct i; discriminate.
  - split; [intros Hn; inversion Hn|]. intros (i & e & _ & Hi). destruct i; discriminate.
  - rewrite map_app, elem_of_app, IH. split.
    + intros [Hy|(i & e & Hv & Hd)].
      * destruct d as [e|]; simpl in Hy; [|inversion Hy].
        apply list_elem_of_singleton in Hy as ->. exists 0%nat, e. split; reflexivity.
      * exists (S i), e. split; assumption.
    + intros ([|i] & e & Hv & Hd); simpl in Hv, Hd.
      * injection Hv as ->. injection Hd as ->. left. simpl. left.
      * right. exists i, e. split; assumption.
Qed.

Lemma filter_specified_NoDup (vs : list Symbol) (ds : list (option Expr)) :
  NoDup vs -> NoDup (map fst (filter_specified (zip vs ds))).
Proof.
  revert ds. induction vs as [|v vs IH]; intros [|d ds] Hnd; simpl; try constructor.
  inversion Hnd as [|? ? Hv Hvs]; subst. rewrite map_app. apply NoDup_app.
  split; [|split].
  - destruct d; simpl; [apply NoDup_singleton|constructor].
  - intros y Hy Hy'. destruct d as [e|]; simpl in Hy; [|inversion Hy].
    apply list_elem_of_singleton in Hy as ->.
    apply filter_specified_keys in Hy' as (i & e' & Hi & _).
    apply Hv. eapply list_elem_of_lookup_2, Hi.
  - apply IH, Hvs.
Qed.

End DictFacts.

Section Claims.
Context `{Sym : Sympy} `{!Helpers} `{!PyDict}.

(** ** Construction *)

(** C6. [ODESystem(variables, derivatives, indep_var)] returns an instance
    exactly when the independent variable is in [variables], the two
    sequences have the same length, and the derivative read at the first
    position of the independent variable is 1; the instance then holds the
    arguments unchanged.  Any other call raises: [AssertionError], or what
    [sympy.var] raised for the default variable.  So every instance built
    has [len(variables) == len(derivatives)] and
    [derivatives[variables.index(indep_var)] == 1]. *)
Theorem init_invariant (vs : list Symbol) (ds : list (option Expr)) (iv0 : option Symbol) :
  (forall self, __init__ vs ds iv0 = Ok self <->
     exists iv i, indep_or_default iv0 = Ok iv /\
       self = {| _variables := vs; _derivatives := ds; _indep_var := iv |} /\
       iv ∈ vs /\ length vs = length ds /\
       index iv vs = Ok i /\ derivatives self !! i = Some (Integer 1))
  /\ (forall e, __init__ vs ds iv0 = Raise e ->
        indep_or_default iv0 = Raise e \/ e = AssertionError)
  /\ (forall self, __init__ vs ds iv0 = Ok self ->
        length (variables self) = length (derivatives self) /\
        exists i, index (indep_var self) (variables self) = Ok i /\
                  derivatives self !! i = Some (Integer 1)).
Proof.
  assert (Hchar : forall self, __init__ vs ds iv0 = Ok self <->
     exists iv i, indep_or_default iv0 = Ok iv /\
       self = {| _variables := vs; _derivatives := ds; _indep_var := iv |} /\
       iv ∈ vs /\ length vs = length ds /\
       index iv vs = Ok i /\ derivatives self !! i = Some (Integer 1)).
  { intros self. unfold __init__. destruct (indep_or_default iv0) as [iv|e]; simpl.
    2:{ split; [discriminate|]. intros (iv & i & Hiv & _). discriminate. }
    unfold indep_var, variables. simpl.
    case_bool_decide as Hin.
    2:{ split; [discriminate|]. intros (iv' & i & Hiv & _ & Hin' & _).
        injection Hiv as <-. contradiction. }
    destruct (Nat.eqb_spec (length vs) (length ds)) as [Hlen|Hlen].
    2:{ split; [discriminate|]. intros (iv' & i & _ & _ & _ & Hlen' & _). contradiction. }
    destruct (index_Ok iv vs Hin) as (i & Hi & Hvi). rewrite Hi. simpl.
    unfold getitem.
    destruct (derivatives {| _variables := vs; _derivatives := ds; _indep_var := iv |} !! i)
      as [d|] eqn:Hd; simpl.
    - case_bool_decide as Hone.
      + split.
        * intros Heq. injection Heq as <-. exists iv, i. subst d. auto 10.
        * intros (iv' & i' & Hiv & -> & _ & _ & Hi' & Hd').
          injection Hiv as <-. reflexivity.
      + split; [discriminate|].
        intros (iv' & i' & Hiv & -> & _ & _ & Hi' & Hd'). injection Hiv as <-.
        rewrite Hi in Hi'. injection Hi' as <-. rewrite Hd in Hd'. congruence.
    - split; [discriminate|].
      intros (iv' & i' & Hiv & -> & _ & _ & Hi' & Hd'). injection Hiv as <-.
      rewrite Hi in Hi'. injection Hi' as <-. rewrite Hd in Hd'. discriminate. }
  split; [exact Hchar|]. split.
  - intros e. unfold __init__. destruct (indep_or_default iv0) as [iv|e']; simpl.
    2:{ intros Heq. left. congruence. }
    unfold indep_var, variables. simpl.
    case_bool_decide as Hin; [|intros Heq; injection Heq as <-; auto].
    destruct (Nat.eqb_spec (length vs) (length ds)) as [Hlen|Hlen];
      [|intros Heq; injection Heq as <-; auto].
    destruct (index_Ok iv vs Hin) as (i & Hi & Hvi). rewrite Hi. simpl.
    unfold getitem.
    destruct (derivatives {| _variables := vs; _derivatives := ds; _indep_var := iv |} !! i)
      as [d|] eqn:Hd; simpl.
    + case_bool_decide; [discriminate|]. intros Heq; injection Heq as <-; auto.
    + exfalso. apply lookup_ge_None in Hd. apply lookup_lt_Some in Hvi.
      unfold derivatives in Hd. simpl in Hd. rewrite length_map in Hd. lia.
  - intros self Hself. apply Hchar in Hself as (iv & i & _ & -> & _ & Hlen & Hi & Hd).
    split.
    + unfold variables, derivatives. simpl. rewrite length_map. exact Hlen.
    + exists i. split; assumption.
Qed.

(** ** Reordering: rejection *)

(** C8. When the names of the requested variables are not a rearrangement of
    the names of the system's variables, [reorder_variables] raises
    [AssertionError] and the instance is as it was before the call. *)
Theorem reorder_rejects_mismatch (variables0 : list Symbol) (self : ODESystem) :
  ~ Permutation (map str variables0) (map str (variables self)) ->
  reorder_variables variables0 self = (Raise AssertionError, self).
Proof.
  intros Hnp. unfold reorder_variables.
  case_bool_decide as Hs; [|reflexivity].
  exfalso. apply Hnp. apply sorted_eq_iff_perm. exact Hs.
Qed.

(** ** Parsing one equation *)

(** C9. A line made of optional leading whitespace, the letter d, an
    alphanumeric name, the characters /d, an alphanumeric name [INDEP] that
    is not the expected independent variable, and then anything that does not
    continue the name: [parse_de] raises the [ValueError] about the
    independent variable.  Nothing else has happened by then: [sympy.var] and
    [sympify] are not reached. *)
Theorem parse_de_wrong_indep (ws VAR INDEP rest indep : string) :
  all_chars is_space ws = true ->
  all_chars is_alnum VAR = true ->
  all_chars is_alnum INDEP = true ->
  starts_outside is_alnum rest = true ->
  INDEP <> indep ->
  parse_de (ws +:+ "d" +:+ VAR +:+ "/d" +:+ INDEP +:+ rest) indep
  = Raise (ValueError ("We only work in ordinary DEs in " +:+ indep)).
Proof.
  intros Hws Hvar Hindep Hrest Hne. unfold parse_de, strip.
  rewrite (lstrip_app ws) by (exact Hws || reflexivity).
  change ("d" +:+ VAR +:+ "/d" +:+ INDEP +:+ rest)
    with (String "d" (VAR +:+ String "/" (String "d" (INDEP +:+ rest)))).
  rewrite (rstrip_cons "d") by reflexivity.
  rewrite (rstrip_app VAR) by (apply all_alnum_not_space, Hvar).
  rewrite (rstrip_cons "/"), (rstrip_cons "d") by reflexivity.
  rewrite (rstrip_app INDEP) by (apply all_alnum_not_space, Hindep).
  pose proof (rstrip_starts_outside is_alnum rest Hrest) as Hrest'.
  unfold re_match_de.
  rewrite (span_app is_alnum VAR) by (exact Hvar || reflexivity).
  rewrite (span_app is_alnum INDEP) by assumption.
  destruct (decide (INDEP <> indep)) as [_|Hn]; [reflexivity|].
  exfalso. apply Hn, Hne.
Qed.

(** ** The maximal scaling matrix *)

Lemma power_matrix_rows (self : ODESystem) (A : ndarray) :
  power_matrix self = Ok A -> shape0 A = length (variables self).
Proof.
  unfold power_matrix. intros Hpm.
  apply bind_Ok in Hpm as (ms & _ & Hpm). apply bind_Ok in Hpm as (out & _ & Hpm).
  destruct (Nat.eqb_spec (shape0 out) (length (variables self))) as [Hn|]; [|discriminate].
  injection Hpm as <-. exact Hn.
Qed.

(** What a successful call has gone through. *)
Lemma maximal_scaling_matrix_Ok (self : ODESystem) (M : ndarray) :
  maximal_scaling_matrix self = Ok M ->
  exists A H U, power_matrix self = Ok A /\ hnf_row A = Ok (H, U) /\
    let k := list_sum (map Nat.b2n (map all_zero (iter_rows H))) in
    (k = 0%nat /\ M = numpy_zeros 1 (length (variables self))
     \/ k <> 0%nat /\ array_all_zero (slice_last k H) = true /\
        shape1 U = Ok (length (variables self)) /\ M = slice_last k U).
Proof.
  unfold maximal_scaling_matrix. intros Hm.
  apply bind_Ok in Hm as (A & HA & Hm). apply bind_Ok in Hm as ([H1 U] & HU & Hm).
  exists A, H1, U. split; [exact HA|]. split; [exact HU|]. simpl.
  destruct (Nat.eqb_spec (list_sum (map Nat.b2n (map all_zero (iter_rows H1)))) 0)
    as [Hk|Hk].
  - left. split; [exact Hk|]. congruence.
  - right. split; [exact Hk|].
    destruct (array_all_zero _) eqn:Hz; [|discriminate].
    apply bind_Ok in Hm as (c & Hc & Hm).
    destruct (Nat.eqb_spec c (length (variables self))) as [->|]; [|discriminate].
    repeat split; congruence.
Qed.

(** C1. When [hnf_row] keeps its promise [U . A = H] on the power matrix [A]
    of the system and [maximal_scaling_matrix] returns, every row of the
    matrix returned combines the rows of [A] to zero: it is in the integer
    left null space of the power matrix. *)
Theorem scaling_rows_annihilate (self : ODESystem) (M : ndarray) :
  (forall A, power_matrix self = Ok A -> hnf_row_contract A) ->
  maximal_scaling_matrix self = Ok M ->
  exists c rows, power_matrix self = Ok (Arr2 c rows) /\
    forall row, row ∈ iter_rows M -> lincomb c row rows = repeat 0 c.
Proof.
  intros Hhnf HM.
  apply maximal_scaling_matrix_Ok in HM as (A & H1 & U & HA & HU & Hcase).
  destruct (Hhnf A HA H1 U HU) as [_ Hdot].
  destruct U as [|cu ru]; [discriminate|]. destruct A as [|ca ra]; [discriminate|].
  simpl in Hdot. destruct (Nat.eqb cu (length ra)); [|discriminate].
  injection Hdot as <-. exists ca, ra. split; [exact HA|].
  intros row Hrow. simpl in Hcase. destruct Hcase as [[_ ->]|(_ & Hz & _ & ->)].
  - simpl in Hrow. apply list_elem_of_singleton in Hrow as ->. apply lincomb_zero.
  - simpl in Hrow, Hz. unfold array_all_zero in Hz. simpl in Hz.
    rewrite last_n_map in Hz. rewrite forallb_forall in Hz.
    specialize (Hz (lincomb ca row ra)).
    rewrite <- (lincomb_length ca row ra) at 2.
    apply all_zero_repeat, Hz. apply list_elem_of_In.
    apply list_elem_of_fmap. exists row. split; [reflexivity|exact Hrow].
Qed.

(** C2. Under the same promise, a matrix returned by
    [maximal_scaling_matrix] has [len(variables)] columns and at least one
    row; when no row of the Hermite form is zero it is the single zero row
    of that length. *)
Theorem scaling_matrix_shape (self : ODESystem) (M : ndarray) :
  (forall A, power_matrix self = Ok A -> hnf_row_contract A) ->
  maximal_scaling_matrix self = Ok M ->
  shape1 M = Ok (length (variables self)) /\ (1 <= shape0 M)%nat /\ well_shaped M /\
  (forall A H U, power_matrix self = Ok A -> hnf_row A = Ok (H, U) ->
     Forall (fun row => all_zero row = false) (iter_rows H) ->
     M = Arr2 (length (variables self)) [repeat 0 (length (variables self))]).
Proof.
  intros Hhnf HM.
  apply maximal_scaling_matrix_Ok in HM as (A & H1 & U & HA & HU & Hcase).
  destruct (Hhnf A HA H1 U HU) as [Hwf Hdot].
  destruct U as [|cu ru]; [discriminate|]. destruct A as [|ca ra]; [discriminate|].
  simpl in Hdot. destruct (Nat.eqb cu (length ra)); [|discriminate].
  injection Hdot as <-. simpl in Hcase.
  destruct Hcase as [[Hk ->]|(Hk & Hz & Hc & ->)].
  - unfold numpy_zeros. simpl. split; [reflexivity|]. split; [lia|]. split.
    + constructor; [apply repeat_length|constructor].
    + intros; reflexivity.
  - simpl in *. split; [exact Hc|]. split; [|split].
    + rewrite last_n_length; [lia|].
      etransitivity; [apply count_true_le|]. rewrite !length_map. reflexivity.
    + rewrite Forall_forall. intros r Hr. rewrite Forall_forall in Hwf.
      apply Hwf. eapply last_n_elem_of, Hr.
    + intros A' H' U' HA' HU' Hnz. exfalso. apply Hk.
      rewrite HA in HA'. injection HA' as <-. rewrite HU in HU'.
      injection HU' as <- <-. simpl in Hnz.
      clear -Hnz. induction Hnz as [|r l Hr Hl IH]; simpl; [reflexivity|].
      rewrite Hr. simpl. exact IH.
Qed.

(** ** The power matrix of one expression *)

Lemma column_of_columns (i c : nat) (powers : list (list Z)) (z : list Z) :
  powers !! i = Some z -> all_zero z = true ->
  all_zero (column i (map (fun j => column j powers) (seq 0 c))) = true.
Proof.
  intros Hi Hz. unfold all_zero, column. rewrite forallb_forall. intros e He.
  apply in_map_iff in He as (col & <- & Hcol).
  apply in_map_iff in Hcol as (j & <- & _).
  assert (Hnth : nth i (map (fun r : list Z => nth j r 0) powers) 0
                 = nth j (nth i powers []) 0).
  { rewrite <- (map_nth (fun r : list Z => nth j r 0)). destruct j; reflexivity. }
  rewrite Hnth, (nth_lookup_Some _ _ _ _ Hi).
  destruct (nth_in_or_default j z 0) as [Hin|Hdef]; [|rewrite Hdef; reflexivity].
  unfold all_zero in Hz. rewrite forallb_forall in Hz. apply Hz, Hin.
Qed.

(** With no term there is no exponent vector, and the array is flat. *)
Lemma exponent_columns_no_terms (ref_power : Expr) (vars : list Symbol) :
  exponent_columns ref_power [] vars = Ok (Arr1 []).
Proof. reflexivity. Qed.

(** [hstack] refuses a flat array next to a matrix, whichever comes first. *)
Lemma hstack_mixed_dimensions (d : list Z) (c : nat) (rows : list (list Z))
    (before after : list ndarray) (first : ndarray) :
  exists msg, hstack (first :: before ++ Arr1 d :: Arr2 c rows :: after) = Raise (ValueError msg)
           /\ hstack (first :: before ++ Arr2 c rows :: Arr1 d :: after) = Raise (ValueError msg).
Proof.
  exists "all the input arrays must have same number of dimensions".
  destruct first as [d0|c0 rows0]; cbn [hstack forallb is_arr1 negb andb];
    rewrite !forallb_app; cbn [forallb is_arr1 negb andb];
    rewrite ?andb_false_r; split; reflexivity.
Qed.

(** C3. How [rational_expr_to_power_matrix] chooses the reference monomial,
    from the constant and the terms [(nc, nts)] of the numerator and
    [(dc, dts)] of the denominator of the cancelled expression:
    - [dc] is not 0: the reference is 1, and a constant [nc] that is not 0
      is added after the terms of the numerator; its column is all zero when
      the exponent vector of a number is;
    - [dc] is 0 and [nc] is not: the reference is 1;
    - both are 0: the last term of the denominator is taken out and is the
      reference.
    In each case the terms of the numerator, then those of the denominator,
    are divided by the reference and their exponent vectors are the
    columns. *)
Theorem reference_monomial_choice (expr : Expr) (vars : list Symbol)
    (nc : Expr) (nts : list Expr) (dc : Expr) (dts : list Expr) :
  as_coeff_add (as_numer_denom (cancel expr)).1 = (nc, nts) ->
  as_coeff_add (as_numer_denom (cancel expr)).2 = (dc, dts) ->
  (dc <> Integer 0 -> nc <> Integer 0 ->
     rational_expr_to_power_matrix expr vars
     = exponent_columns (Integer 1) ((nts ++ [nc]) ++ dts) vars
     /\ forall M z, rational_expr_to_power_matrix expr vars = Ok M ->
          monomial_to_powers (div nc (Integer 1)) vars = Ok z -> all_zero z = true ->
          all_zero (column (length nts) (arr2_rows M)) = true)
  /\ (dc <> Integer 0 -> nc = Integer 0 ->
        rational_expr_to_power_matrix expr vars
        = exponent_columns (Integer 1) (nts ++ dts) vars)
  /\ (dc = Integer 0 -> nc <> Integer 0 ->
        rational_expr_to_power_matrix expr vars
        = exponent_columns (Integer 1) (nts ++ dts) vars)
  /\ (dc = Integer 0 -> nc = Integer 0 -> forall ts r, dts = ts ++ [r] ->
        rational_expr_to_power_matrix expr vars
        = exponent_columns r (nts ++ ts) vars).
Proof.
  intros Hnum Hden. unfold rational_expr_to_power_matrix, exponent_columns.
  destruct (as_numer_denom (cancel expr)) as [num denom]. simpl in Hnum, Hden.
  rewrite Hnum, Hden. repeat split.
  - destruct (decide (dc <> Integer 0)); [|contradiction].
    destruct (decide (nc <> Integer 0)); [|contradiction]. reflexivity.
  - intros M z HM Hz Hzero.
    destruct (decide (dc <> Integer 0)); [|contradiction].
    destruct (decide (nc <> Integer 0)); [|contradiction]. simpl in HM.
    apply bind_Ok in HM as (powers & Hp & HM). apply bind_Ok in HM as (a & Ha & HM).
    injection HM as <-.
    apply mapM_Ok_Forall2 in Hp.
    apply Forall2_app_inv_l in Hp as (p1 & p2 & Hp1 & Hp2 & ->).
    apply Forall2_app_inv_l in Hp1 as (p11 & p12 & Hp11 & Hp12 & ->).
    inversion Hp12 as [|? z' ? ? Hz' Hnil]; subst. inversion Hnil; subst.
    rewrite Hz in Hz'. injection Hz' as <-.
    apply Forall2_length in Hp11.
    assert (Hlook : ((p11 ++ [z]) ++ p2) !! length nts = Some z).
    { rewrite <- app_assoc, Hp11. apply list_lookup_middle. reflexivity. }
    unfold numpy_array in Ha.
    destruct ((p11 ++ [z]) ++ p2) as [|r0 rest] eqn:Hpow; [discriminate|].
    destruct (forallb _ (r0 :: rest)); [|discriminate].
    destruct (forallb (forallb INT_TYPE_DEF) (r0 :: rest)); [|discriminate].
    injection Ha as <-. cbn [arr2_rows transpose].
    exact (column_of_columns _ _ (r0 :: rest) z Hlook Hzero).
  - intros Hdc Hnc. destruct (decide (dc <> Integer 0)); [|contradiction].
    destruct (decide (nc <> Integer 0)); [contradiction|]. reflexivity.
  - intros Hdc Hnc. destruct (decide (dc <> Integer 0)); [contradiction|].
    destruct (decide (nc <> Integer 0)); [|contradiction]. reflexivity.
  - intros Hdc Hnc ts r ->. destruct (decide (dc <> Integer 0)); [contradiction|].
    destruct (decide (nc <> Integer 0)); [contradiction|].
    unfold pop. rewrite last_snoc, removelast_last. reflexivity.
Qed.

(** ** The power matrix of the system *)

(** C4, as the code has it.  [power_matrix] stacks side by side the blocks of
    the items of the derivative mapping, each the power matrix of
    [indep_var * expr / var], in the order in which the dict is iterated.
    The keys of the mapping are the variables with a specified derivative;
    the order of iteration is a rearrangement of the mapping, which for
    pairwise distinct variables lists them in the order of the system.  A
    matrix returned has [len(variables)] rows. *)
Theorem power_matrix_blocks (self : ODESystem) :
  dict_order_lawful ->
  power_matrix self = stacked_blocks self (iteritems (derivative_dict self))
  /\ Permutation (iteritems (derivative_dict self)) (derivative_dict self)
  /\ (forall y, y ∈ map fst (derivative_dict self) <->
        exists i e, variables self !! i = Some y /\ _derivatives self !! i = Some (Some e))
  /\ (NoDup (variables self) ->
        derivative_dict self
        = filter_specified (zip (variables self) (_derivatives self)))
  /\ (forall out, power_matrix self = Ok out -> shape0 out = length (variables self)).
Proof.
  intros Hlaw. split; [|split; [|split; [|split]]].
  - unfold power_matrix, stacked_blocks. rewrite mapM_map. reflexivity.
  - apply Hlaw.
  - intros y. unfold derivative_dict. rewrite dict_keys. apply filter_specified_keys.
  - intros Hnd. unfold derivative_dict. apply dict_NoDup, filter_specified_NoDup, Hnd.
  - apply power_matrix_rows.
Qed.

(** ** Building a system from equations *)

(** C10. Let [iv] be the independent variable of the call.  If a line of the
    equations parses to a derivative of [iv], [from_equations] raises and
    builds nothing: [AssertionError] when every line parses.  If every line
    parses and none is for [iv], the class is called with [iv] among the
    variables handed to [unique_array_stable] and with the derivative 1 at
    every position where the variables hold [iv]. *)
Theorem from_equations_indep_var (equations : string + list string)
    (iv0 : option Symbol) (iv : Symbol) :
  indep_or_default iv0 = Ok iv ->
  ((exists line e, line ∈ equation_lines equations /\ parse_de line "t" = Ok (iv, e)) ->
     exists err, from_equations equations iv0 = Raise err)
  /\ (forall pairs,
        mapM (fun line => parse_de line "t") (equation_lines equations) = Ok pairs ->
        iv ∈ map fst pairs -> from_equations equations iv0 = Raise AssertionError)
  /\ (forall pairs,
        mapM (fun line => parse_de line "t") (equation_lines equations) = Ok pairs ->
        iv ∉ map fst pairs ->
        exists V D, from_equations equations iv0 = __init__ V D None
          /\ (exists L1 L2, V = unique_array_stable (L1 ++ [iv] ++ L2))
          /\ length D = length V
          /\ forall i, V !! i = Some iv -> D !! i = Some (Some (Integer 1))).
Proof.
  intros Hiv.
  assert (Hfail : forall pairs,
        mapM (fun line => parse_de line "t") (equation_lines equations) = Ok pairs ->
        iv ∈ map fst pairs -> from_equations equations iv0 = Raise AssertionError).
  { intros pairs Hp Hin. unfold from_equations. rewrite Hiv. simpl. rewrite Hp. simpl.
    case_bool_decide as Hget; [|reflexivity].
    apply dict_get_None in Hget. rewrite dict_keys in Hget. contradiction. }
  split; [|split; [exact Hfail|]].
  - intros (line & e & Hline & Hparse).
    destruct (mapM (fun line => parse_de line "t") (equation_lines equations))
      as [pairs|err] eqn:Hp.
    + exists AssertionError. apply (Hfail pairs eq_refl).
      apply mapM_Ok_Forall2 in Hp. apply list_elem_of_lookup in Hline as (i & Hi).
      destruct (Forall2_lookup_l _ _ _ _ _ Hp Hi) as (y & Hy & Hpy).
      rewrite Hparse in Hpy. injection Hpy as <-.
      apply list_elem_of_fmap. exists (iv, e). split; [reflexivity|].
      eapply list_elem_of_lookup_2, Hy.
    + exists err. unfold from_equations. rewrite Hiv. simpl. rewrite Hp. reflexivity.
  - intros pairs Hp Hnin. unfold from_equations. rewrite Hiv. simpl. rewrite Hp. simpl.
    case_bool_decide as Hget.
    2:{ exfalso. apply Hget, dict_get_None. rewrite dict_keys. exact Hnin. }
    eexists _, _. split; [reflexivity|]. split; [|split].
    + eexists _, _. reflexivity.
    + apply length_map.
    + intros i Hi. rewrite list_lookup_fmap, Hi. simpl. rewrite dict_get_set. reflexivity.
Qed.

(** ** Reordering: acceptance *)

(** The list of positions [reorder_variables] builds. *)
Lemma column_shuffle_Forall2 (vs Q : list Symbol) :
  NoDup (map str vs) ->
  (forall nv, nv ∈ Q -> str nv ∈ map str vs) ->
  Forall2 (fun nv i => exists x, vs !! i = Some x /\ str x = str nv) Q
    (flat_map (fun new_var =>
                 indices_from (fun v => bool_decide (str v = str new_var)) vs 0) Q).
Proof.
  intros Hnd. induction Q as [|nv Q IH]; intros HQ; simpl; [constructor|].
  destruct (proj1 (list_elem_of_fmap _ _ _) (HQ nv ltac:(left))) as (x & Hx & Hin).
  apply list_elem_of_lookup in Hin as (j & Hj).
  rewrite (indices_from_unique str vs j 0 x (str nv) Hnd Hj (eq_sym Hx)). simpl.
  constructor.
  - exists x. split; [exact Hj|congruence].
  - apply IH. intros nv' Hnv'. apply HQ. right. exact Hnv'.
Qed.

(** What an accepted call does: position [k] of the new sequences holds the
    variable of the system named like [Q[k]], and its derivative. *)
Lemma reorder_variables_Ok (self : ODESystem) (Q : list Symbol) :
  NoDup (map str (variables self)) ->
  length (_variables self) = length (_derivatives self) ->
  Permutation (map str Q) (map str (variables self)) ->
  exists vs' ds',
    reorder_variables Q self
    = (Ok tt, {| _variables := vs'; _derivatives := ds'; _indep_var := _indep_var self |})
    /\ length vs' = length Q /\ length ds' = length Q
    /\ forall k nv, Q !! k = Some nv ->
         exists i x d, _variables self !! i = Some x /\ _derivatives self !! i = Some d
           /\ str x = str nv /\ vs' !! k = Some x /\ ds' !! k = Some d.
Proof.
  destruct self as [vs ds iv]. unfold variables. simpl. intros Hnd Hlen Hperm.
  unfold reorder_variables, variables. simpl.
  rewrite bool_decide_eq_true_2 by (apply sorted_eq_iff_perm, Hperm).
  pose proof (column_shuffle_Forall2 vs Q Hnd) as Hsh.
  specialize (Hsh ltac:(intros nv Hnv; rewrite <- Hperm; apply list_elem_of_fmap;
                        exists nv; split; [reflexivity|exact Hnv])).
  set (sh := flat_map _ Q) in *.
  assert (Hrange : Forall (fun i => (i < length vs)%nat) sh).
  { apply Forall2_Forall_r with (1 := Hsh). apply Forall_forall.
    intros nv _ i (x & Hi & _). eapply lookup_lt_Some, Hi. }
  destruct (fancy_index_in_range vs sh Hrange) as [vs' Hvs'].
  rewrite Hlen in Hrange.
  destruct (fancy_index_in_range ds sh Hrange) as [ds' Hds'].
  rewrite Hvs', Hds'. exists vs', ds'. split; [reflexivity|].
  apply fancy_index_Ok in Hvs', Hds'.
  pose proof (Forall2_length _ _ _ Hsh) as L1.
  pose proof (Forall2_length _ _ _ Hvs') as L2.
  pose proof (Forall2_length _ _ _ Hds') as L3.
  split; [lia|]. split; [lia|].
  intros k nv Hk.
  destruct (Forall2_lookup_l _ _ _ _ _ Hsh Hk) as (i & Hi & x & Hx & Hname).
  destruct (Forall2_lookup_l _ _ _ _ _ Hvs' Hi) as (x' & Hx' & Hvx).
  destruct (Forall2_lookup_l _ _ _ _ _ Hds' Hi) as (d & Hd & Hdd).
  exists i, x, d. rewrite Hx in Hvx. injection Hvx as <-. auto 10.
Qed.

(** C7, for systems whose variables have pairwise distinct names.
    [reorder_variables] with the variables in their current order changes
    nothing; with any sequence [P] whose names are a rearrangement of theirs
    it is accepted and puts the names in the order of [P], and a second call
    with the first order gives back the variables and the derivatives as
    they were. *)
Theorem reorder_round_trip (self : ODESystem) (P : list Symbol) :
  NoDup (map str (variables self)) ->
  length (_variables self) = length (_derivatives self) ->
  reorder_variables (variables self) self = (Ok tt, self)
  /\ (Permutation (map str P) (map str (variables self)) ->
      exists self', reorder_variables P self = (Ok tt, self')
        /\ map str (variables self') = map str P
        /\ reorder_variables (variables self) self' = (Ok tt, self)).
Proof.
  intros Hnd Hlen.
  assert (Hid : forall self0 : ODESystem,
    NoDup (map str (variables self0)) ->
    length (_variables self0) = length (_derivatives self0) ->
    forall vs' ds',
      length vs' = length (_variables self0) -> length ds' = length (_variables self0) ->
      (forall k nv, _variables self0 !! k = Some nv ->
         exists d, _derivatives self0 !! k = Some d /\ vs' !! k = Some nv /\ ds' !! k = Some d) ->
      {| _variables := vs'; _derivatives := ds'; _indep_var := _indep_var self0 |} = self0).
  { intros [vs ds iv]. simpl. intros _ Hl vs' ds' L1 L2 Hk. f_equal.
    - apply list_eq_same_length with (length vs); [reflexivity|exact L1|].
      intros k a b Hlt Ha Hb. destruct (Hk k b Hb) as (d & _ & Hv & _). congruence.
    - apply list_eq_same_length with (length vs); [symmetry; exact Hl|exact L2|].
      intros k a b Hlt Ha Hb.
      destruct (lookup_lt_is_Some_2 vs k Hlt) as [nv Hnv].
      destruct (Hk k nv Hnv) as (d & Hd & _ & Hd'). congruence. }
  split.
  - destruct (reorder_variables_Ok self (variables self) Hnd Hlen (Permutation_refl _))
      as (vs' & ds' & Heq & L1 & L2 & Hpos).
    rewrite Heq. f_equal. apply Hid; try assumption.
    intros k nv Hk. destruct (Hpos k nv Hk) as (i & x & d & Hx & Hd & Hname & Hv & Hd').
    assert (i = k) as -> by (apply (lookup_by_key str (_variables self) i k x nv Hnd Hx Hk Hname)).
    unfold variables in Hk. rewrite Hk in Hx. injection Hx as <-.
    exists d. auto.
  - intros Hperm.
    destruct (reorder_variables_Ok self P Hnd Hlen Hperm)
      as (vs' & ds' & Heq & L1 & L2 & Hpos).
    set (self' := {| _variables := vs'; _derivatives := ds'; _indep_var := _indep_var self |}).
    assert (Hnames : map str vs' = map str P).
    { apply list_eq_same_length with (length P); rewrite ?length_map; try assumption.
      - reflexivity.
      - intros k a b Hlt Ha Hb. rewrite list_lookup_fmap in Ha, Hb.
        destruct (P !! k) as [nv|] eqn:HP; [|discriminate].
        destruct (Hpos k nv HP) as (i & x & d & _ & _ & Hname & Hv & _).
        rewrite Hv in Ha. simpl in Ha, Hb. congruence. }
    exists self'. split; [exact Heq|]. split; [exact Hnames|].
    assert (Hnd' : NoDup (map str (variables self'))).
    { unfold variables, self'. simpl. rewrite Hnames, Hperm. exact Hnd. }
    assert (Hlen' : length (_variables self') = length (_derivatives self')).
    { simpl. lia. }
    assert (Hperm' : Permutation (map str (variables self)) (map str (variables self'))).
    { unfold variables at 2. simpl. rewrite Hnames. symmetry. exact Hperm. }
    destruct (reorder_variables_Ok self' (variables self) Hnd' Hlen' Hperm')
      as (vs'' & ds'' & Heq' & L1' & L2' & Hpos').
    rewrite Heq'. f_equal. change (_indep_var self') with (_indep_var self).
    apply Hid; try assumption.
    intros j nv Hj.
    destruct (Hpos' j nv Hj) as (k & x' & d' & Hx' & Hd' & Hname' & Hv'' & Hd'').
    simpl in Hx', Hd'.
    destruct (lookup_lt_is_Some_2 P k) as [pv HP].
    { rewrite <- L1. eapply lookup_lt_Some, Hx'. }
    destruct (Hpos k pv HP) as (i & x & d & Hx & Hd & Hname & Hv & Hdd).
    rewrite Hv in Hx'. injection Hx' as <-. rewrite Hdd in Hd'. injection Hd' as <-.
    assert (i = j) as ->
      by (apply (lookup_by_key str (_variables self) i j x nv Hnd Hx Hj); congruence).
    unfold variables in Hj. rewrite Hj in Hx. injection Hx as <-.
    exists d. auto.
Qed.

End Claims.

(** * The claims on examples *)

Module Examples.
Import Mono.

Lemma growth_hnf_contract (A : ndarray) : power_matrix growth = Ok A -> hnf_row_contract A.
Proof.
  intros HA. vm_compute in HA. injection HA as <-.
  intros H U HU. vm_compute in HU. injection HU as <- <-.
  split; [repeat constructor|reflexivity].
Defined.

Lemma scaling_rows_annihilate_witness :
  (forall A, power_matrix growth = Ok A -> hnf_row_contract A)
  /\ maximal_scaling_matrix growth = Ok growth_scaling
  /\ exists c rows, power_matrix growth = Ok (Arr2 c rows) /\
       forall row, row ∈ iter_rows growth_scaling -> lincomb c row rows = repeat 0 c.
Proof.
  split; [exact growth_hnf_contract|]. split; [reflexivity|].
  apply (scaling_rows_annihilate growth growth_scaling growth_hnf_contract).
  reflexivity.
Defined.

Lemma scaling_matrix_shape_witness :
  shape1 growth_scaling = Ok (length (variables growth))
  /\ (1 <= shape0 growth_scaling)%nat.
Proof.
  destruct (scaling_matrix_shape growth growth_scaling growth_hnf_contract eq_refl)
    as (Hc & Hr & _).
  split; assumption.
Defined.

Lemma reference_monomial_choice_witness :
  rational_expr_to_power_matrix (div (symbol_expr x) (symbol_expr y)) [x; y]
  = exponent_columns (symbol_expr y) [symbol_expr x] [x; y].
Proof.
  destruct (reference_monomial_choice (Sym := sympy)
              (m_div (of_symbol x) (of_symbol y)) [x; y]
              (of_Z 0) [of_symbol x] (of_Z 0) [of_symbol y] eq_refl eq_refl)
    as (_ & _ & _ & Hlast).
  apply (Hlast eq_refl eq_refl [] (of_symbol y) eq_refl).
Defined.

Lemma insertion_order_lawful : @dict_order_lawful sympy insertion_order.
Proof. intros d. reflexivity. Defined.

Lemma power_matrix_blocks_witness :
  power_matrix growth = stacked_blocks growth (iteritems (derivative_dict growth))
  /\ (forall out, power_matrix growth = Ok out -> shape0 out = length (variables growth)).
Proof.
  destruct (power_matrix_blocks growth insertion_order_lawful) as (Hb & _ & _ & _ & Hr).
  split; assumption.
Defined.

Lemma growth_names_NoDup : NoDup (map str (variables growth)).
Proof. apply (bool_decide_unpack _). vm_compute. exact I. Defined.

Lemma reorder_round_trip_witness :
  reorder_variables (variables growth) growth = (Ok tt, growth)
  /\ exists self', reorder_variables [t; x] growth = (Ok tt, self')
       /\ map str (variables self') = map str [t; x]
       /\ reorder_variables (variables growth) self' = (Ok tt, growth).
Proof.
  destruct (reorder_round_trip growth [t; x] growth_names_NoDup eq_refl) as [Hid Hrt].
  split; [exact Hid|]. apply Hrt. apply perm_swap.
Defined.

Lemma reorder_rejects_mismatch_witness :
  reorder_variables [x] growth = (Raise AssertionError, growth).
Proof.
  apply reorder_rejects_mismatch. intros Hp. apply Permutation_length in Hp. discriminate.
Defined.

Lemma parse_de_wrong_indep_witness :
  parse_de (" " +:+ "d" +:+ "n" +:+ "/d" +:+ "s" +:+ " = n") "t"
  = Raise (ValueError ("We only work in ordinary DEs in " +:+ "t")).
Proof.
  apply (parse_de_wrong_indep " " "n" "s" " = n" "t"); try reflexivity. discriminate.
Defined.

Lemma from_equations_indep_var_witness :
  exists V D, from_equations (inl "dx/dt = a") None = __init__ V D None
    /\ length D = length V
    /\ forall i, V !! i = Some t -> D !! i = Some (Some (Integer 1)).
Proof.
  destruct (from_equations_indep_var (Sym := sympy) (inl "dx/dt = a") None t eq_refl)
    as (_ & _ & Hins).
  destruct (Hins [(x, of_symbol (Sym "a" []))] eq_refl) as (V & D & HV & _ & HD).
  - intros Hin. apply list_elem_of_singleton in Hin. discriminate.
  - exists V, D. split; [exact HV|exact HD].
Defined.

(** C4, as the spec has it, fails for an interpreter that iterates the dict
    of [growth] from its last key: the block of [t] then comes first. *)
Lemma power_matrix_order_counterexample :
  @power_matrix sympy table_helpers reverse_order growth
  <> power_matrix_in_variable_order growth.
Proof. vm_compute. discriminate. Qed.

(** C5. For the derivative 0 the expression [t * 0 / x] has no term: the
    array built from no exponent vector has the shape [(0,)], not
    [(n, 0)], and stacking it with the block of [t] raises, whichever block
    comes first. *)
Lemma zero_derivative_power_matrix :
  block constant (x, of_Z 0) = Ok (Arr1 [])
  /\ block constant (t, of_Z 1) = Ok (Arr2 1 [[0]; [0]])
  /\ @power_matrix sympy table_helpers insertion_order constant
     = Raise (ValueError "all the input arrays must have same number of dimensions")
  /\ @power_matrix sympy table_helpers reverse_order constant
     = Raise (ValueError "all the input arrays must have same number of dimensions").
Proof. repeat split; reflexivity. Qed.

(** C7, as the spec has it, fails when two variables share a name: the
    class accepts [twice], and reordering it to its own order makes it
    longer. *)
Lemma reorder_identity_counterexample :
  __init__ [x; x; t] [None; None; Some (of_Z 1)] (Some t) = Ok twice
  /\ reorder_variables (variables twice) twice <> (Ok tt, twice).
Proof. split; [reflexivity|]. vm_compute. discriminate. Qed.

End Examples.

(** * Further properties *)

Lemma indices_from_bound {A} (p : A -> bool) (l : list A) (i0 i : nat) :
  i ∈ indices_from p l i0 -> (i0 <= i < i0 + length l)%nat.
Proof.
  revert i0. induction l as [|y l IH]; intros i0 Hi; simpl in Hi; [inversion Hi|].
  apply elem_of_app in Hi as [Hi|Hi].
  - destruct (p y); [|inversion Hi]. apply list_elem_of_singleton in Hi as ->. simpl. lia.
  - apply IH in Hi. simpl. lia.
Qed.

Lemma zip_lookup_Some {A B} (l : list A) (k : list B) (i : nat) (a : A) (b : B) :
  zip l k !! i = Some (a, b) <-> l !! i = Some a /\ k !! i = Some b.
Proof.
  split.
  - intros Hz. apply lookup_zip_with_Some in Hz as (a' & b' & Heq & Ha & Hb).
    injection Heq as -> ->. auto.
  - intros [Ha Hb]. apply lookup_zip_with_Some. exists a, b. auto.
Qed.

Lemma zip_NoDup_by_key {A B} (f : A -> string) (l : list A) (k : list B) :
  NoDup (map f l) -> NoDup (zip l k).
Proof.
  intros Hnd. apply NoDup_alt. intros i j [a b] Hi Hj.
  apply zip_lookup_Some in Hi as [Hi _]. apply zip_lookup_Some in Hj as [Hj _].
  eapply (lookup_by_key f); eauto.
Qed.

Lemma index_lookup {A} `{EqDecision A} (x : A) (l : list A) (i : nat) :
  index x l = Ok i -> l !! i = Some x.
Proof.
  revert i. induction l as [|y l IH]; intros i Hi; simpl in Hi; [discriminate|].
  destruct (decide (y = x)) as [->|Hne].
  - injection Hi as <-. reflexivity.
  - apply bind_Ok in Hi as (j & Hj & Hi). injection Hi as <-. simpl. apply IH, Hj.
Qed.

Section Extras.
Context `{Sym : Sympy} `{!Helpers} `{!PyDict}.

(** ** Reordering *)

(** X1. On an instance with as many derivatives as variables,
    [reorder_variables] has two outcomes only.  When the names asked for are
    a rearrangement of the names of the variables (repeated names counted)
    it returns, and the instance keeps its independent variable and has
    again as many derivatives as variables; otherwise it raises
    [AssertionError] and the instance is unchanged.  No call stops half way
    with an index out of range. *)
Theorem reorder_two_outcomes (Q : list Symbol) (self : ODESystem) :
  length (_variables self) = length (_derivatives self) ->
  (Permutation (map str Q) (map str (variables self)) /\
     exists self', reorder_variables Q self = (Ok tt, self') /\
       _indep_var self' = _indep_var self /\
       length (_variables self') = length (_derivatives self'))
  \/ (~ Permutation (map str Q) (map str (variables self)) /\
      reorder_variables Q self = (Raise AssertionError, self)).
Proof.
  intros Hlen. unfold reorder_variables.
  case_bool_decide as Hs.
  2:{ right. split; [|reflexivity]. intros Hp. apply Hs, sorted_eq_iff_perm, Hp. }
  left. split; [apply sorted_eq_iff_perm, Hs|].
  set (sh := flat_map _ Q).
  assert (Hrange : Forall (fun i => (i < length (_variables self))%nat) sh).
  { apply Forall_forall. intros i Hi. apply list_elem_of_In, in_flat_map in Hi as (nv & _ & Hi).
    apply list_elem_of_In, indices_from_bound in Hi. unfold variables in Hi. lia. }
  destruct (fancy_index_in_range _ sh Hrange) as [vs' Hvs']. rewrite Hvs'. simpl.
  rewrite Hlen in Hrange.
  destruct (fancy_index_in_range _ sh Hrange) as [ds' Hds']. rewrite Hds'.
  eexists. split; [reflexivity|]. simpl. split; [reflexivity|].
  apply fancy_index_Ok, Forall2_length in Hvs'.
  apply fancy_index_Ok, Forall2_length in Hds'. congruence.
Qed.

(** What [reorder_variables] returned, read back from the call. *)
Lemma reorder_variables_inv (self self' : ODESystem) (P : list Symbol) :
  NoDup (map str (variables self)) ->
  length (_variables self) = length (_derivatives self) ->
  reorder_variables P self = (Ok tt, self') ->
  _indep_var self' = _indep_var self
  /\ length (_variables self') = length P /\ length (_derivatives self') = length P
  /\ Permutation (map str P) (map str (variables self))
  /\ forall k nv, P !! k = Some nv ->
       exists i x d, _variables self !! i = Some x /\ _derivatives self !! i = Some d
         /\ str x = str nv /\ _variables self' !! k = Some x
         /\ _derivatives self' !! k = Some d.
Proof.
  intros Hnd Hlen Hcall.
  assert (Hperm : Permutation (map str P) (map str (variables self))).
  { unfold reorder_variables in Hcall.
    case_bool_decide as Hs; [apply sorted_eq_iff_perm, Hs|discriminate]. }
  destruct (reorder_variables_Ok self P Hnd Hlen Hperm) as (vs' & ds' & Heq & L1 & L2 & Hpos).
  rewrite Heq in Hcall. injection Hcall as <-. simpl. auto 10.
Qed.

(** The pairs after an accepted call. *)
Lemma reorder_moves_pairs_aux (self self' : ODESystem) (P : list Symbol) :
  NoDup (map str (variables self)) ->
  length (_variables self) = length (_derivatives self) ->
  reorder_variables P self = (Ok tt, self') ->
  Permutation (zip (_variables self') (_derivatives self'))
              (zip (_variables self) (_derivatives self))
  /\ map str (variables self') = map str P.
Proof.
  intros Hnd Hlen Hcall.
  destruct (reorder_variables_inv self self' P Hnd Hlen Hcall)
    as (_ & L1 & L2 & Hperm & Hpos).
  assert (Hnames : map str (variables self') = map str P).
  { unfold variables.
    apply list_eq_same_length with (length P); rewrite ?length_map; try assumption.
    - reflexivity.
    - intros k a b Hlt Ha Hb. rewrite list_lookup_fmap in Ha, Hb.
      destruct (P !! k) as [nv|] eqn:HP; [|discriminate].
      destruct (Hpos k nv HP) as (i & x & d & _ & _ & Hname & Hv & _).
      rewrite Hv in Ha. simpl in Ha, Hb. congruence. }
  split; [|exact Hnames].
  apply NoDup_Permutation.
  - apply (zip_NoDup_by_key str). fold (variables self'). rewrite Hnames, Hperm. exact Hnd.
  - apply (zip_NoDup_by_key str). exact Hnd.
  - intros [x d]. rewrite !list_elem_of_lookup. split.
    + intros (k & Hk). apply zip_lookup_Some in Hk as [Hx Hd].
      destruct (lookup_lt_is_Some_2 P k) as [nv HP].
      { rewrite <- L1. eapply lookup_lt_Some, Hx. }
      destruct (Hpos k nv HP) as (i & x0 & d0 & Hx0 & Hd0 & _ & Hv & Hdd).
      exists i. apply zip_lookup_Some. split; congruence.
    + intros (i & Hi). apply zip_lookup_Some in Hi as [Hx Hd].
      assert (Hin : str x ∈ map str P).
      { rewrite Hperm. apply list_elem_of_fmap. exists x. split; [reflexivity|].
        eapply list_elem_of_lookup_2, Hx. }
      apply list_elem_of_fmap in Hin as (nv & Hname & Hin).
      apply list_elem_of_lookup in Hin as (k & HP).
      destruct (Hpos k nv HP) as (i' & x0 & d0 & Hx0 & Hd0 & Hname0 & Hv & Hdd).
      assert (i' = i) as ->
        by (apply (lookup_by_key str (_variables self) i' i x0 x Hnd Hx0 Hx); congruence).
      exists k. apply zip_lookup_Some. split; congruence.
Qed.

(** X2. For variables with pairwise distinct names, an accepted
    [reorder_variables] moves every variable together with its derivative:
    the pairs (variable, derivative) after the call are a rearrangement of
    the pairs before it, and the names come in the order asked for. *)
Theorem reorder_moves_pairs (self self' : ODESystem) (P : list Symbol) :
  NoDup (map str (variables self)) ->
  length (_variables self) = length (_derivatives self) ->
  reorder_variables P self = (Ok tt, self') ->
  Permutation (zip (_variables self') (_derivatives self'))
              (zip (_variables self) (_derivatives self))
  /\ map str (variables self') = map str P.
Proof. apply reorder_moves_pairs_aux. Qed.

(** What the class checks, for a call that names the independent
    variable. *)
Lemma init_Ok_iff (vs : list Symbol) (ds : list (option Expr)) (iv : Symbol)
    (self : ODESystem) :
  __init__ vs ds (Some iv) = Ok self <->
  self = {| _variables := vs; _derivatives := ds; _indep_var := iv |}
  /\ iv ∈ vs /\ length vs = length ds
  /\ exists i, index iv vs = Ok i /\ derivatives self !! i = Some (Integer 1).
Proof.
  unfold __init__. simpl. unfold indep_var, variables. simpl.
  case_bool_decide as Hin.
  2:{ split; [discriminate|]. intros (_ & Hin' & _). contradiction. }
  destruct (Nat.eqb_spec (length vs) (length ds)) as [Hlen|Hlen].
  2:{ split; [discriminate|]. intros (_ & _ & Hlen' & _). contradiction. }
  destruct (index_Ok iv vs Hin) as (i & Hi & Hvi). rewrite Hi. simpl. unfold getitem.
  destruct (derivatives {| _variables := vs; _derivatives := ds; _indep_var := iv |} !! i)
    as [d|] eqn:Hd; simpl.
  - case_bool_decide as Hone.
    + split.
      * intros Heq. injection Heq as <-. subst d. eauto 10.
      * intros (-> & _). reflexivity.
    + split; [discriminate|]. intros (-> & _ & _ & i' & Hi' & Hd').
      injection Hi' as <-. rewrite Hd in Hd'. congruence.
  - split; [discriminate|]. intros (-> & _ & _ & i' & Hi' & Hd').
    injection Hi' as <-. rewrite Hd in Hd'. discriminate.
Qed.

(** X3. [reorder_variables] keeps what the class checks.  When an instance
    built by the class has variables with pairwise distinct names and a call
    of [reorder_variables] returns, the class accepts the new variables and
    derivatives with the same independent variable: the derivative read at
    the new position of the independent variable is still 1. *)
Theorem reorder_keeps_invariant (vs : list Symbol) (ds : list (option Expr))
    (iv0 : option Symbol) (self self' : ODESystem) (P : list Symbol) :
  __init__ vs ds iv0 = Ok self ->
  NoDup (map str vs) ->
  reorder_variables P self = (Ok tt, self') ->
  __init__ (_variables self') (_derivatives self') (Some (_indep_var self')) = Ok self'.
Proof.
  intros Hinit Hnd Hcall.
  assert (Hself : __init__ vs ds (Some (_indep_var self)) = Ok self).
  { unfold __init__ in Hinit.
    destruct (indep_or_default iv0) as [iv|e]; [|discriminate]. simpl in Hinit.
    assert (Hrec : self = {| _variables := vs; _derivatives := ds; _indep_var := iv |}).
    { pose proof Hinit as Hc.
      destruct (bool_decide _) in Hc; [|discriminate].
      destruct (Nat.eqb _ _) in Hc; [|discriminate].
      apply bind_Ok in Hc as (i & _ & Hc). apply bind_Ok in Hc as (d & _ & Hc).
      destruct (bool_decide _) in Hc; [|discriminate]. congruence. }
    rewrite Hrec at 1. exact Hinit. }
  apply init_Ok_iff in Hself as (Hrec & Hin & Hlen & i & Hi & Hone).
  assert (Hvs : _variables self = vs) by (rewrite Hrec; reflexivity).
  assert (Hds : _derivatives self = ds) by (rewrite Hrec; reflexivity).
  assert (Hnd' : NoDup (map str (variables self))) by (unfold variables; rewrite Hvs; exact Hnd).
  assert (Hlen' : length (_variables self) = length (_derivatives self)) by congruence.
  destruct (reorder_variables_inv self self' P Hnd' Hlen' Hcall)
    as (Hiv & L1 & L2 & Hperm & Hpos).
  destruct (reorder_moves_pairs_aux self self' P Hnd' Hlen' Hcall) as [Hpairs Hnames].
  apply index_lookup in Hi as Hvi.
  unfold derivatives in Hone. rewrite list_lookup_fmap, Hds in Hone.
  destruct (ds !! i) as [d|] eqn:Hd; [|discriminate]. simpl in Hone.
  assert (Hpair : (_indep_var self, d) ∈ zip (_variables self') (_derivatives self')).
  { rewrite Hpairs. apply list_elem_of_lookup. exists i. apply zip_lookup_Some.
    rewrite Hvs, Hds. auto. }
  apply list_elem_of_lookup in Hpair as (k & Hk). apply zip_lookup_Some in Hk as [Hxk Hdk].
  apply init_Ok_iff. rewrite Hiv. split; [destruct self'; simpl in *; congruence|].
  assert (Hin' : _indep_var self ∈ _variables self')
    by (eapply list_elem_of_lookup_2, Hxk).
  split; [exact Hin'|]. split; [congruence|].
  destruct (index_Ok _ _ Hin') as (k' & Hk' & Hxk').
  assert (k' = k) as ->.
  { apply (lookup_by_key str (_variables self') k' k (_indep_var self) (_indep_var self));
      [|exact Hxk'|exact Hxk|reflexivity].
    fold (variables self'). rewrite Hnames, Hperm. exact Hnd'. }
  exists k. split; [exact Hk'|].
  unfold derivatives. rewrite list_lookup_fmap, Hdk. exact Hone.
Qed.

(** ** The shape of a power matrix *)

Lemma numpy_array_Ok (fits : Z -> bool) (l : list (list Z)) (a : ndarray) :
  numpy_array fits l = Ok a ->
  (l = [] /\ a = Arr1 [])
  \/ (exists r rest, l = r :: rest /\ a = Arr2 (length r) l
        /\ Forall (fun r' => length r' = length r) l).
Proof.
  destruct l as [|r rest]; simpl; intros Ha.
  - left. split; congruence.
  - right. exists r, rest. rewrite Nat.eqb_refl in Ha. simpl in Ha.
    destruct (forallb (fun r' => Nat.eqb (length r') (length r)) rest) eqn:Hlen;
      [|discriminate].
    destruct (forallb fits r && forallb (forallb fits) rest); [|discriminate].
    split; [reflexivity|]. split; [congruence|].
    constructor; [reflexivity|]. apply Forall_forall. intros r' Hr'.
    rewrite forallb_forall in Hlen. apply Nat.eqb_eq, Hlen, list_elem_of_In, Hr'.
Qed.

(** The matrix of [k] terms has [k] columns, and as many rows as an exponent
    vector is long; without a term the array is flat. *)
Lemma exponent_columns_Ok (ref_power : Expr) (terms : list Expr) (vars : list Symbol)
    (M : ndarray) :
  exponent_columns ref_power terms vars = Ok M ->
  (terms = [] /\ M = Arr1 [])
  \/ (terms <> [] /\ exists rows mon v,
        M = Arr2 (length terms) rows /\ well_shaped M /\ mon ∈ terms
        /\ monomial_to_powers (div mon ref_power) vars = Ok v /\ length rows = length v).
Proof.
  unfold exponent_columns. intros HM.
  apply bind_Ok in HM as (powers & Hp & HM). apply bind_Ok in HM as (a & Ha & HM).
  injection HM as <-. pose proof (mapM_Ok_length _ _ _ Hp) as Hlen.
  apply mapM_Ok_Forall2 in Hp.
  apply numpy_array_Ok in Ha as [[-> ->]|(r & rest & -> & -> & Hrows)].
  - left. destruct terms; [auto|discriminate].
  - right. destruct terms as [|mon terms]; [discriminate|]. split; [discriminate|].
    inversion Hp as [|? ? ? ? Hmon _]; subst.
    eexists _, mon, r. cbn [transpose]. rewrite <- Hlen. split; [reflexivity|].
    split; [|split; [left|split; [exact Hmon|]]].
    + cbn [well_shaped]. apply Forall_forall. intros row Hrow.
      apply list_elem_of_fmap in Hrow as (j & -> & _).
      unfold column. rewrite length_map. reflexivity.
    + rewrite length_map, length_seq. reflexivity.
Qed.

(** The choice [rational_expr_to_power_matrix] makes, whatever it is. *)
Lemma rational_expr_columns (expr : Expr) (vars : list Symbol) (M : ndarray) :
  rational_expr_to_power_matrix expr vars = Ok M ->
  exists ref_power terms, exponent_columns ref_power terms vars = Ok M.
Proof.
  unfold rational_expr_to_power_matrix, exponent_columns.
  destruct (as_numer_denom (cancel expr)) as [num denom].
  destruct (as_coeff_add num) as [nc nts]. destruct (as_coeff_add denom) as [dc dts].
  intros HM. apply bind_Ok in HM as ([[ref_power nts'] dts'] & _ & HM).
  exists ref_power, (nts' ++ dts'). exact HM.
Qed.

(** X6. The matrix [rational_expr_to_power_matrix] returns has one column
    for each term it keeps: the terms of the numerator and of the
    denominator, plus the constant of the numerator when both constants are
    not 0, minus the reference when it was taken from the denominator.  With
    no term kept the result is the flat array of shape [(0,)].  Every row of
    the matrix has that many entries, and when [monomial_to_powers] gives
    vectors as long as the variable list, the matrix has one row for each
    variable. *)
Theorem power_matrix_columns (expr : Expr) (vars : list Symbol)
    (nc : Expr) (nts : list Expr) (dc : Expr) (dts : list Expr) (M : ndarray) :
  as_coeff_add (as_numer_denom (cancel expr)).1 = (nc, nts) ->
  as_coeff_add (as_numer_denom (cancel expr)).2 = (dc, dts) ->
  rational_expr_to_power_matrix expr vars = Ok M ->
  let k := if decide (dc <> Integer 0) then
             (length nts + (if decide (nc <> Integer 0) then 1 else 0) + length dts)%nat
           else if decide (nc <> Integer 0) then (length nts + length dts)%nat
           else (length nts + length dts - 1)%nat in
  (k = 0%nat /\ M = Arr1 [])
  \/ (k <> 0%nat /\ shape1 M = Ok k /\ well_shaped M
      /\ ((forall mon v, monomial_to_powers mon vars = Ok v -> length v = length vars) ->
          shape0 M = length vars)).
Proof.
  intros Hnum Hden HM. unfold rational_expr_to_power_matrix in HM.
  destruct (as_numer_denom (cancel expr)) as [num denom]. simpl in Hnum, Hden.
  rewrite Hnum, Hden in HM.
  apply bind_Ok in HM as ([[ref_power nts'] dts'] & Hchoice & HM).
  fold (exponent_columns ref_power (nts' ++ dts') vars) in HM.
  assert (Hk : length (nts' ++ dts')
               = if decide (dc <> Integer 0) then
                   (length nts + (if decide (nc <> Integer 0) then 1 else 0) + length dts)%nat
                 else if decide (nc <> Integer 0) then (length nts + length dts)%nat
                 else (length nts + length dts - 1)%nat).
  { rewrite length_app. destruct (decide (dc <> Integer 0)).
    - injection Hchoice as _ <- <-. destruct (decide (nc <> Integer 0)).
      + rewrite length_app. simpl. lia.
      + lia.
    - destruct (decide (nc <> Integer 0)).
      + injection Hchoice as _ <- <-. reflexivity.
      + apply bind_Ok in Hchoice as ([r ts] & Hpop & Hchoice). injection Hchoice as _ <- <-.
        unfold pop in Hpop. destruct (last dts) eqn:Hlast; [|discriminate].
        injection Hpop as _ <-. simpl.
        destruct dts as [|d0 dts0] using rev_ind; [discriminate|].
        rewrite removelast_last, length_app. simpl. lia. }
  simpl. rewrite <- Hk.
  apply exponent_columns_Ok in HM as [[Hnil ->]|(Hne & rows & mon & v & -> & Hwf & _ & Hv & Hrows)].
  - left. rewrite Hnil. auto.
  - right. split; [destruct (nts' ++ dts'); [contradiction|discriminate]|].
    split; [reflexivity|]. split; [exact Hwf|].
    intros Hcontract. simpl. rewrite Hrows. eapply Hcontract, Hv.
Qed.

(** ** Stacking the blocks *)

Lemma hstack_Ok (arrs : list ndarray) (out : ndarray) :
  hstack arrs = Ok out ->
  (Forall (fun a => is_arr1 a = true) arrs /\ out = Arr1 (concat (map arr1_data arrs)))
  \/ (Forall (fun a => is_arr1 a = false /\ shape0 a = shape0 out) arrs
      /\ out = Arr2 (list_sum (map arr2_ncols arrs))
                    (map (hstack_row arrs) (seq 0 (shape0 out)))).
Proof.
  destruct arrs as [|[d|c rows] rest]; [discriminate| |]; cbn [hstack].
  - destruct (forallb is_arr1 (Arr1 d :: rest)) eqn:Hall; [|discriminate].
    intros Hout. injection Hout as <-. left. split; [|reflexivity].
    apply Forall_forall. intros a Ha. rewrite forallb_forall in Hall.
    apply Hall, list_elem_of_In, Ha.
  - destruct (forallb (fun a => negb (is_arr1 a)) (Arr2 c rows :: rest)) eqn:Hall;
      [|discriminate].
    destruct (forallb (fun a => Nat.eqb (shape0 a) (length rows)) (Arr2 c rows :: rest))
      eqn:Hrows; [|discriminate].
    intros Hout. injection Hout as <-. right. cbn [shape0].
    rewrite length_map, length_seq. split; [|reflexivity].
    apply Forall_forall. intros a Ha. rewrite forallb_forall in Hall, Hrows.
    apply list_elem_of_In in Ha. specialize (Hall a Ha). specialize (Hrows a Ha).
    apply Nat.eqb_eq in Hrows. destruct (is_arr1 a); [discriminate|]. auto.
Qed.

Lemma block_shape (self : ODESystem) (item : Symbol * Expr) (b : ndarray) :
  block self item = Ok b ->
  b = Arr1 [] \/ exists c rows, b = Arr2 c rows /\ c <> 0%nat
                                /\ Forall (fun r => length r = c) rows.
Proof.
  unfold block. intros Hb. apply rational_expr_columns in Hb as (ref_power & terms & Hb).
  apply exponent_columns_Ok in Hb as [[_ ->]|(Hne & rows & _ & _ & -> & Hwf & _)].
  - left. reflexivity.
  - right. exists (length terms), rows. split; [reflexivity|]. split; [|exact Hwf].
    destruct terms; [contradiction|discriminate].
Qed.

(** What [power_matrix] has stacked when it returns. *)
Lemma power_matrix_inv (self : ODESystem) (A : ndarray) :
  variables self <> [] ->
  power_matrix self = Ok A ->
  exists blocks,
    mapM (block self) (iteritems (derivative_dict self)) = Ok blocks
    /\ blocks <> []
    /\ Forall (matrix_block (length (variables self))) blocks
    /\ A = Arr2 (list_sum (map arr2_ncols blocks))
                (map (hstack_row blocks) (seq 0 (length (variables self)))).
Proof.
  intros Hn. unfold power_matrix. rewrite mapM_map. intros HA.
  apply bind_Ok in HA as (blocks & Hblocks & HA). apply bind_Ok in HA as (out & Hout & HA).
  destruct (Nat.eqb_spec (shape0 out) (length (variables self))) as [Hrows|]; [|discriminate].
  injection HA as <-. exists blocks.
  change (mapM (block self) (iteritems (derivative_dict self)) = Ok blocks) in Hblocks.
  split; [exact Hblocks|]. split; [intros ->; discriminate|].
  apply mapM_Ok_Forall2 in Hblocks.
  assert (Hshape : Forall (fun b => b = Arr1 [] \/ exists c rows, b = Arr2 c rows /\ c <> 0%nat
                                /\ Forall (fun r => length r = c) rows) blocks).
  { apply Forall_forall. intros b Hb. apply list_elem_of_lookup in Hb as (i & Hi).
    destruct (Forall2_lookup_r _ _ _ _ _ Hblocks Hi) as (item & _ & Hitem).
    eapply block_shape, Hitem. }
  apply hstack_Ok in Hout as [[Hflat ->]|[Hmat Hout]].
  - exfalso. apply Hn. apply length_zero_iff_nil. rewrite <- Hrows. simpl.
    clear -Hflat Hshape. induction blocks as [|b blocks IH]; [reflexivity|].
    inversion Hflat; subst. inversion Hshape as [|? ? Hb Hbs]; subst.
    destruct Hb as [->|(c & rows & -> & _)]; [|discriminate]. simpl. apply IH; assumption.
  - rewrite Hrows in Hout, Hmat. split; [|exact Hout].
    apply Forall_forall. intros b Hb. rewrite Forall_forall in Hmat, Hshape.
    destruct (Hmat b Hb) as [Hb1 Hb0].
    destruct (Hshape b Hb) as [->|(c & rows & -> & Hc & Hwf)]; [discriminate|].
    exists c, rows. auto.
Qed.

Lemma hstack_row_length (n i : nat) (blocks : list ndarray) :
  Forall (matrix_block n) blocks -> (i < n)%nat ->
  length (hstack_row blocks i) = list_sum (map arr2_ncols blocks).
Proof.
  intros Hb Hi. unfold hstack_row. induction Hb as [|b blocks Hb _ IH]; [reflexivity|].
  simpl. rewrite length_app, IH. f_equal.
  destruct Hb as (c & rows & -> & _ & Hrows & Hwf). simpl.
  destruct (lookup_lt_is_Some_2 rows i) as [r Hr]; [lia|].
  rewrite (nth_lookup_Some _ _ _ _ Hr). rewrite Forall_forall in Hwf.
  eapply Hwf, list_elem_of_lookup_2, Hr.
Qed.

(** X7. On a system with at least one variable, [power_matrix] returns only
    when every item of the derivative mapping gave a block that is a matrix
    with [len(variables)] rows and at least one column; an item whose
    expression keeps no term makes it raise.  The matrix returned has the
    columns of all the blocks: their numbers add up, there is at least one,
    and every row has that many entries. *)
Theorem power_matrix_of_matrices (self : ODESystem) (A : ndarray) :
  variables self <> [] ->
  power_matrix self = Ok A ->
  exists blocks,
    mapM (block self) (iteritems (derivative_dict self)) = Ok blocks
    /\ Forall (matrix_block (length (variables self))) blocks
    /\ shape1 A = Ok (list_sum (map arr2_ncols blocks))
    /\ list_sum (map arr2_ncols blocks) <> 0%nat
    /\ shape0 A = length (variables self)
    /\ well_shaped A.
Proof.
  intros Hn HA.
  destruct (power_matrix_inv self A Hn HA) as (blocks & Hblocks & Hne & Hmat & ->).
  exists blocks. split; [exact Hblocks|]. split; [exact Hmat|]. split; [reflexivity|].
  split; [|split].
  - destruct blocks as [|b blocks]; [contradiction|].
    inversion Hmat as [|? ? (c & rows & -> & Hc & _) _]; subst. simpl. lia.
  - simpl. rewrite length_map, length_seq. reflexivity.
  - simpl. apply Forall_forall. intros r Hr.
    apply list_elem_of_fmap in Hr as (i & -> & Hi).
    apply elem_of_seq in Hi. apply (hstack_row_length _ _ _ Hmat). lia.
Qed.

(** ** The rows of the Hermite form *)

Lemma count_true_all (bs : list bool) :
  Forall (fun b => b = true) bs -> list_sum (map Nat.b2n bs) = length bs.
Proof. induction 1 as [|b bs -> _ IH]; simpl; [reflexivity|]. rewrite IH. reflexivity. Qed.

Lemma count_true_none (bs : list bool) :
  list_sum (map Nat.b2n bs) = 0%nat -> Forall (fun b => b = false) bs.
Proof.
  induction bs as [|[] bs IH]; simpl; intros Hc; [constructor|lia|].
  constructor; [reflexivity|]. apply IH, Hc.
Qed.

Lemma iter_rows_slice_last (k : nat) (a : ndarray) :
  iter_rows (slice_last k a) = last_n k (iter_rows a).
Proof. destruct a; simpl; [rewrite last_n_map|]; reflexivity. Qed.

(** X4. When [maximal_scaling_matrix] returns and the Hermite form [H] has
    [r > 0] zero rows, the zero rows of [H] are exactly its last [r] rows:
    every row above them has an entry that is not 0.  The matrix returned is
    made of the last [r] rows of the multiplier, and has exactly [r] rows
    when [hnf_row] keeps its promise. *)
Theorem zero_rows_at_bottom (self : ODESystem) (M A H1 U : ndarray) :
  power_matrix self = Ok A ->
  hnf_row A = Ok (H1, U) ->
  maximal_scaling_matrix self = Ok M ->
  let r := list_sum (map Nat.b2n (map all_zero (iter_rows H1))) in
  r <> 0%nat ->
  M = slice_last r U
  /\ Forall (fun row => all_zero row = false) (take (length (iter_rows H1) - r) (iter_rows H1))
  /\ Forall (fun row => all_zero row = true) (drop (length (iter_rows H1) - r) (iter_rows H1))
  /\ (hnf_row_contract A -> shape0 M = r).
Proof.
  intros HA HU HM r Hr.
  apply maximal_scaling_matrix_Ok in HM as (A' & H' & U' & HA' & HU' & Hcase).
  rewrite HA in HA'. injection HA' as <-. rewrite HU in HU'. injection HU' as <- <-.
  fold r in Hcase. destruct Hcase as [[Hr0 _]|(_ & Hz & _ & ->)]; [contradiction|].
  split; [reflexivity|].
  assert (Hbottom : Forall (fun row => all_zero row = true)
                      (drop (length (iter_rows H1) - r) (iter_rows H1))).
  { unfold array_all_zero in Hz. apply Forall_forall. intros row Hrow.
    rewrite forallb_forall in Hz. apply Hz, list_elem_of_In.
    rewrite iter_rows_slice_last. exact Hrow. }
  assert (Hle : (r <= length (iter_rows H1))%nat).
  { unfold r. etransitivity; [apply count_true_le|]. rewrite length_map. reflexivity. }
  split; [|split; [exact Hbottom|]].
  - assert (Hcount : list_sum (map Nat.b2n (map all_zero
                       (take (length (iter_rows H1) - r) (iter_rows H1)))) = 0%nat).
    { assert (Hsplit : r = (list_sum (map Nat.b2n (map all_zero
                               (take (length (iter_rows H1) - r) (iter_rows H1))))
                            + list_sum (map Nat.b2n (map all_zero
                               (drop (length (iter_rows H1) - r) (iter_rows H1)))))%nat).
      { unfold r at 1. rewrite <- (take_drop (length (iter_rows H1) - r) (iter_rows H1)) at 1.
        rewrite !map_app, list_sum_app. reflexivity. }
      rewrite (count_true_all (map all_zero (drop _ _))) in Hsplit.
      - rewrite length_map, length_drop in Hsplit. lia.
      - apply Forall_fmap. exact Hbottom. }
    apply count_true_none in Hcount. apply Forall_fmap in Hcount. exact Hcount.
  - intros Hcontract. destruct (Hcontract H1 U HU) as [_ Hdot].
    destruct U as [|cu ru]; [discriminate|]. destruct A as [|ca ra]; [discriminate|].
    simpl in Hdot. destruct (Nat.eqb cu (length ra)); [|discriminate].
    injection Hdot as Hdot. simpl. apply last_n_length.
    rewrite <- Hdot in Hle. simpl in Hle. rewrite length_map in Hle. exact Hle.
Qed.

(** ** The scaling rows and the blocks *)

Lemma combination_ext (a b : nat) (u : list Z) (rowsA rowsB : list (list Z)) :
  Forall2 (fun ra rb => nth a ra 0 = nth b rb 0) rowsA rowsB ->
  fold_right Z.add 0 (zip_with (fun x r => x * nth a r 0) u rowsA)
  = fold_right Z.add 0 (zip_with (fun x r => x * nth b r 0) u rowsB).
Proof.
  intros Hrows. revert u. induction Hrows as [|ra rb rowsA rowsB Hr _ IH]; intros [|x u];
    simpl; try reflexivity.
  rewrite Hr, IH. reflexivity.
Qed.

Lemma hstack_row_app (B1 B2 : list ndarray) (i : nat) :
  hstack_row (B1 ++ B2) i = hstack_row B1 i ++ hstack_row B2 i.
Proof. unfold hstack_row. rewrite map_app, concat_app. reflexivity. Qed.

(** A row that combines the rows of the stacked matrix to zero combines the
    rows of every block to zero. *)
Lemma lincomb_block (n cb : nat) (rb : list (list Z)) (B1 B2 : list ndarray) (u : list Z) :
  Forall (matrix_block n) (B1 ++ Arr2 cb rb :: B2) ->
  lincomb (list_sum (map arr2_ncols (B1 ++ Arr2 cb rb :: B2))) u
          (map (hstack_row (B1 ++ Arr2 cb rb :: B2)) (seq 0 n))
  = repeat 0 (list_sum (map arr2_ncols (B1 ++ Arr2 cb rb :: B2))) ->
  lincomb cb u rb = repeat 0 cb.
Proof.
  intros Hblocks Hzero.
  apply Forall_app in Hblocks as [HB1 Hrest].
  apply Forall_cons in Hrest as [(c & rows & Heq & _ & Hrows & Hwf) HB2].
  injection Heq as <- <-.
  set (o := list_sum (map arr2_ncols B1)).
  set (total := list_sum (map arr2_ncols (B1 ++ Arr2 cb rb :: B2))) in *.
  assert (Htotal : total = (o + (cb + list_sum (map arr2_ncols B2)))%nat).
  { unfold total, o. rewrite map_app, list_sum_app. reflexivity. }
  assert (Hentry : forall j, (j < cb)%nat ->
            fold_right Z.add 0 (zip_with (fun x r => x * nth j r 0) u rb) = 0).
  { intros j Hj.
    assert (Hk : (o + j < total)%nat) by lia.
    apply (f_equal (fun l => nth (o + j) l 0)) in Hzero.
    rewrite nth_repeat in Hzero.
    unfold lincomb in Hzero.
    erewrite nth_lookup_Some in Hzero
      by (rewrite list_lookup_fmap, lookup_seq_lt by exact Hk; reflexivity).
    simpl in Hzero. etransitivity; [|exact Hzero]. symmetry. apply combination_ext.
    apply Forall2_same_length_lookup_2.
    - rewrite length_map, length_seq. symmetry. exact Hrows.
    - intros i ra r Hra Hr. rewrite list_lookup_fmap in Hra.
      assert (Hi : (i < n)%nat) by (rewrite <- Hrows; eapply lookup_lt_Some, Hr).
      rewrite lookup_seq_lt in Hra by exact Hi. simpl in Hra. injection Hra as <-.
      rewrite hstack_row_app.
      replace o with (length (hstack_row B1 i)) by (exact (hstack_row_length n i B1 HB1 Hi)).
      rewrite app_nth2_plus.
      change (hstack_row (Arr2 cb rb :: B2) i)
        with (nth i rb [] ++ hstack_row B2 i).
      rewrite (nth_lookup_Some _ _ _ _ Hr).
      apply app_nth1. rewrite Forall_forall in Hwf.
      rewrite (Hwf r) by (eapply list_elem_of_lookup_2, Hr). exact Hj. }
  unfold lincomb. clear -Hentry.
  assert (Hall : Forall (fun j => (j < cb)%nat) (seq 0 cb)).
  { apply Forall_forall. intros j Hj. apply elem_of_seq in Hj. lia. }
  assert (Hmap : forall l, Forall (fun j => (j < cb)%nat) l ->
            map (fun j => fold_right Z.add 0 (zip_with (fun x r => x * nth j r 0) u rb)) l
            = repeat 0 (length l)).
  { induction 1 as [|j l Hj _ IH]; simpl; [reflexivity|].
    rewrite (Hentry j Hj), IH. reflexivity. }
  rewrite (Hmap _ Hall), length_seq. reflexivity.
Qed.

(** The rows returned are in the left null space of the power matrix. *)
Lemma scaling_rows_null (self : ODESystem) (M A : ndarray) :
  hnf_row_contract A ->
  power_matrix self = Ok A ->
  maximal_scaling_matrix self = Ok M ->
  exists c rows, A = Arr2 c rows /\
    forall row, row ∈ iter_rows M -> lincomb c row rows = repeat 0 c.
Proof.
  intros Hhnf HA HM.
  apply maximal_scaling_matrix_Ok in HM as (A' & H1 & U & HA' & HU & Hcase).
  rewrite HA in HA'. injection HA' as <-.
  destruct (Hhnf H1 U HU) as [_ Hdot].
  destruct U as [|cu ru]; [discriminate|]. destruct A as [|ca ra]; [discriminate|].
  simpl in Hdot. destruct (Nat.eqb cu (length ra)); [|discriminate].
  injection Hdot as <-. exists ca, ra. split; [reflexivity|].
  intros row Hrow. simpl in Hcase. destruct Hcase as [[_ ->]|(_ & Hz & _ & ->)].
  - simpl in Hrow. apply list_elem_of_singleton in Hrow as ->. apply lincomb_zero.
  - simpl in Hrow, Hz. unfold array_all_zero in Hz. simpl in Hz.
    rewrite last_n_map in Hz. rewrite forallb_forall in Hz.
    specialize (Hz (lincomb ca row ra)).
    rewrite <- (lincomb_length ca row ra) at 2.
    apply all_zero_repeat, Hz. apply list_elem_of_In.
    apply list_elem_of_fmap. exists row. split; [reflexivity|exact Hrow].
Qed.

(** X5. When [hnf_row] keeps its promise and [maximal_scaling_matrix]
    returns on a system with at least one variable, every row returned
    combines to zero the rows of the block of every single item of the
    derivative mapping: the scaling leaves each equation invariant on its
    own, not only the stacked matrix. *)
Theorem scaling_rows_annihilate_blocks (self : ODESystem) (M : ndarray) :
  variables self <> [] ->
  (forall A, power_matrix self = Ok A -> hnf_row_contract A) ->
  maximal_scaling_matrix self = Ok M ->
  forall item, item ∈ iteritems (derivative_dict self) ->
    exists c rows, block self item = Ok (Arr2 c rows) /\
      forall row, row ∈ iter_rows M -> lincomb c row rows = repeat 0 c.
Proof.
  intros Hn Hhnf HM item Hitem.
  destruct (maximal_scaling_matrix_Ok self M HM) as (A & _ & _ & HA & _).
  destruct (scaling_rows_null self M A (Hhnf A HA) HA HM) as (ca & ra & -> & Hnull).
  destruct (power_matrix_inv self _ Hn HA) as (blocks & Hblocks & _ & Hmat & Heq).
  injection Heq as -> ->.
  apply mapM_Ok_Forall2 in Hblocks.
  apply list_elem_of_lookup in Hitem as (i & Hi).
  destruct (Forall2_lookup_l _ _ _ _ _ Hblocks Hi) as (b & Hb & Hblock).
  pose proof (take_drop_middle _ _ _ Hb) as Hsplit.
  assert (Hbm : matrix_block (length (variables self)) b).
  { rewrite Forall_forall in Hmat. eapply Hmat, list_elem_of_lookup_2, Hb. }
  destruct Hbm as (cb & rb & -> & _).
  exists cb, rb. split; [exact Hblock|].
  intros row Hrow. specialize (Hnull row Hrow).
  rewrite <- Hsplit in Hnull, Hmat.
  eapply lincomb_block; eassumption.
Qed.

End Extras.

(** ** More on strings *)

Lemma rstrip_app_nonempty (a b : string) :
  rstrip b <> EmptyString -> rstrip (a +:+ b) = a +:+ rstrip b.
Proof.
  intros Hb. induction a as [|c a IH]; [reflexivity|].
  change (String c a +:+ b) with (String c (a +:+ b)). simpl. rewrite IH.
  destruct (a +:+ rstrip b) eqn:Hab.
  - destruct a; [|discriminate]. simpl in Hab. contradiction.
  - change (String c a +:+ rstrip b) with (String c (a +:+ rstrip b)). rewrite Hab.
    reflexivity.
Qed.

Lemma rstrip_all_space (ws : string) : all_chars is_space ws = true -> rstrip ws = EmptyString.
Proof.
  induction ws as [|c ws IH]; [reflexivity|]. simpl. intros Hws.
  apply andb_prop in Hws as [Hc Hws]. rewrite (IH Hws), Hc. reflexivity.
Qed.

Lemma rstrip_app_space (b ws : string) :
  all_chars is_space ws = true -> rstrip (b +:+ ws) = rstrip b.
Proof.
  intros Hws. induction b as [|c b IH]; [apply rstrip_all_space, Hws|].
  change (String c b +:+ ws) with (String c (b +:+ ws)). simpl. rewrite IH. reflexivity.
Qed.

Lemma rstrip_idempotent (s : string) : rstrip (rstrip s) = rstrip s.
Proof.
  induction s as [|c s IH]; [reflexivity|]. simpl.
  destruct (rstrip s) as [|c' r] eqn:Hr.
  - destruct (is_space c) eqn:Hc; [reflexivity|]. simpl. rewrite Hc. reflexivity.
  - change (rstrip (String c (String c' r)) = String c (String c' r)).
    simpl. simpl in IH. rewrite IH. reflexivity.
Qed.

Lemma lstrip_rstrip (s : string) : lstrip (rstrip s) = rstrip (lstrip s).
Proof.
  induction s as [|c s IH]; [reflexivity|].
  destruct (is_space c) eqn:Hc.
  - simpl. rewrite Hc. rewrite <- IH. destruct (rstrip s) as [|c' r]; [reflexivity|].
    simpl. rewrite Hc. reflexivity.
  - rewrite (rstrip_cons c s Hc). cbn [lstrip]. rewrite Hc. symmetry.
    apply rstrip_cons, Hc.
Qed.

Lemma strip_rstrip (s : string) : strip (rstrip s) = strip s.
Proof. unfold strip. rewrite lstrip_rstrip. apply rstrip_idempotent. Qed.

Lemma span_skip (p : ascii -> bool) (a b : string) :
  all_chars p a = true -> snd (span p (a +:+ b)) = snd (span p b).
Proof.
  intros Ha. induction a as [|c a IH]; [reflexivity|]. simpl in *.
  apply andb_prop in Ha as [Hc Ha]. rewrite Hc. specialize (IH Ha).
  destruct (span p (a +:+ b)). exact IH.
Qed.

Lemma span_outside (p : ascii -> bool) (s : string) :
  starts_outside p s = true -> span p s = (EmptyString, s).
Proof. destruct s as [|c s]; simpl; [reflexivity|]. destruct (p c); [discriminate|reflexivity]. Qed.

Lemma span_all (p : ascii -> bool) (s : string) :
  all_chars p s = true -> span p s = (s, EmptyString).
Proof.
  induction s as [|c s IH]; simpl; [reflexivity|]. intros Hs.
  apply andb_prop in Hs as [Hc Hs]. rewrite Hc, (IH Hs). reflexivity.
Qed.

Lemma starts_outside_app (p : ascii -> bool) (a b : string) :
  starts_outside p a = true -> starts_outside p b = true -> starts_outside p (a +:+ b) = true.
Proof. destruct a; simpl; auto. Qed.

Lemma all_chars_starts_outside (p q : ascii -> bool) (a : string) :
  (forall c, p c = true -> q c = false) -> all_chars p a = true -> starts_outside q a = true.
Proof.
  intros Hpq. destruct a as [|c a]; simpl; [reflexivity|]. intros Ha.
  apply andb_prop in Ha as [Hc _]. rewrite (Hpq c Hc). reflexivity.
Qed.

Section ExtrasParsing.
Context `{Sym : Sympy} `{!Helpers} `{!PyDict}.

(** ** Parsing one equation, continued *)

(** The first two groups of a line that starts like an equation. *)
Lemma re_match_de_groups (VAR INDEP rest : string) :
  all_chars is_alnum VAR = true ->
  all_chars is_alnum INDEP = true ->
  starts_outside is_alnum rest = true ->
  exists g3,
    re_match_de (strip ("d" +:+ VAR +:+ "/d" +:+ INDEP +:+ rest)) = Some (VAR, INDEP, g3)
    /\ g3 = fst (span (fun c => negb (Ascii.eqb c newline))
                   (snd (span is_space (snd (span (Ascii.eqb "=")
                      (snd (span is_space (rstrip rest)))))))).
Proof.
  intros Hvar Hindep Hrest. unfold strip.
  change ("d" +:+ VAR +:+ "/d" +:+ INDEP +:+ rest)
    with (String "d" (VAR +:+ String "/" (String "d" (INDEP +:+ rest)))).
  cbn [lstrip]. change (is_space "d") with false. cbv iota.
  rewrite (rstrip_cons "d") by reflexivity.
  rewrite (rstrip_app VAR) by (apply all_alnum_not_space, Hvar).
  rewrite (rstrip_cons "/"), (rstrip_cons "d") by reflexivity.
  rewrite (rstrip_app INDEP) by (apply all_alnum_not_space, Hindep).
  pose proof (rstrip_starts_outside is_alnum rest Hrest) as Hrest'.
  unfold re_match_de.
  rewrite (span_app is_alnum VAR) by (exact Hvar || reflexivity).
  rewrite (span_app is_alnum INDEP) by assumption.
  eexists. split; reflexivity.
Qed.

(** A line of the grammar, with its expression. *)
Lemma parse_de_Ok_aux (ws VAR indep sp1 eqs sp2 EXPR ws' : string) :
  all_chars is_space ws = true ->
  all_chars is_alnum VAR = true ->
  all_chars is_alnum indep = true ->
  all_chars is_space sp1 = true ->
  all_chars (Ascii.eqb "=") eqs = true ->
  all_chars is_space sp2 = true ->
  starts_outside is_alnum (sp1 +:+ eqs +:+ sp2 +:+ EXPR) = true ->
  EXPR <> EmptyString ->
  starts_outside is_space EXPR = true ->
  starts_outside (Ascii.eqb "=") EXPR = true ->
  rstrip EXPR = EXPR ->
  all_chars (fun c => negb (Ascii.eqb c newline)) EXPR = true ->
  all_chars is_space ws' = true ->
  parse_de (ws +:+ "d" +:+ VAR +:+ "/d" +:+ indep +:+ sp1 +:+ eqs +:+ sp2 +:+ EXPR +:+ ws')
           indep
  = (v <- var VAR ;; e <- sympify EXPR ;; Ok (v, e)).
Proof.
  intros Hws Hvar Hindep Hsp1 Heqs Hsp2 Hsep Hne Hsp Heq Hr Hnl Hws'.
  assert (Hsep' : starts_outside is_alnum (sp1 +:+ eqs +:+ sp2 +:+ EXPR +:+ ws') = true).
  { destruct sp1 as [|c ?]; [|exact Hsep]. destruct eqs as [|c ?]; [|exact Hsep].
    destruct sp2 as [|c ?]; [|exact Hsep]. destruct EXPR as [|c ?]; [contradiction|exact Hsep]. }
  unfold parse_de.
  assert (Hstrip : strip (ws +:+ "d" +:+ VAR +:+ "/d" +:+ indep +:+ sp1 +:+ eqs +:+ sp2
                          +:+ EXPR +:+ ws')
                   = strip ("d" +:+ VAR +:+ "/d" +:+ indep +:+ sp1 +:+ eqs +:+ sp2
                            +:+ EXPR +:+ ws')).
  { unfold strip. rewrite (lstrip_app ws) by (exact Hws || reflexivity). reflexivity. }
  rewrite Hstrip.
  destruct (re_match_de_groups VAR indep _ Hvar Hindep Hsep') as (g3 & -> & Hg3).
  assert (Htail : rstrip (sp1 +:+ eqs +:+ sp2 +:+ EXPR +:+ ws')
                  = sp1 +:+ eqs +:+ sp2 +:+ EXPR).
  { assert (Hlast : rstrip (EXPR +:+ ws') = EXPR) by (rewrite rstrip_app_space; assumption).
    assert (Hnz : rstrip (EXPR +:+ ws') <> EmptyString) by congruence.
    rewrite (rstrip_app_nonempty sp1).
    2:{ rewrite (rstrip_app_nonempty eqs).
        2:{ rewrite (rstrip_app_nonempty sp2) by exact Hnz. rewrite Hlast.
            destruct sp2; [exact Hne|discriminate]. }
        rewrite (rstrip_app_nonempty sp2) by exact Hnz. rewrite Hlast.
        destruct eqs; [destruct sp2; [exact Hne|discriminate]|discriminate]. }
    rewrite (rstrip_app_nonempty eqs).
    2:{ rewrite (rstrip_app_nonempty sp2) by exact Hnz. rewrite Hlast.
        destruct sp2; [exact Hne|discriminate]. }
    rewrite (rstrip_app_nonempty sp2) by exact Hnz. rewrite Hlast. reflexivity. }
  rewrite Htail in Hg3.
  assert (Hg : g3 = EXPR).
  { rewrite Hg3. rewrite (span_skip is_space sp1) by exact Hsp1.
    assert (Hsp2' : snd (span is_space (sp2 +:+ EXPR)) = EXPR).
    { rewrite (span_skip is_space sp2) by exact Hsp2. rewrite span_outside by exact Hsp.
      reflexivity. }
    assert (Hmid : snd (span is_space (snd (span (Ascii.eqb "=")
                      (snd (span is_space (eqs +:+ sp2 +:+ EXPR)))))) = EXPR).
    { destruct eqs as [|c eqs'] eqn:Heqs'.
      - change (EmptyString +:+ sp2 +:+ EXPR) with (sp2 +:+ EXPR).
        rewrite Hsp2'. rewrite (span_outside (Ascii.eqb "=") EXPR) by exact Heq.
        simpl. rewrite span_outside by exact Hsp. reflexivity.
      - rewrite <- Heqs' in *.
        rewrite (span_outside is_space (eqs +:+ sp2 +:+ EXPR)).
        2:{ pose proof Heqs as Heqs2. rewrite Heqs' in Heqs2 |- *.
            cbn [all_chars] in Heqs2. change (negb (is_space c) = true).
            apply andb_prop in Heqs2 as [Hc _].
            apply Ascii.eqb_eq in Hc. subst c. reflexivity. }
        simpl. rewrite (span_skip (Ascii.eqb "=") eqs) by exact Heqs.
        rewrite (span_outside (Ascii.eqb "=") (sp2 +:+ EXPR)).
        2:{ destruct sp2 as [|c2 sp2']; [exact Heq|]. cbn [all_chars] in Hsp2.
            change (negb (Ascii.eqb "=" c2) = true).
            apply andb_prop in Hsp2 as [Hc2 _].
            destruct (Ascii.eqb_spec "=" c2) as [<-|]; [vm_compute in Hc2; discriminate|reflexivity]. }
        simpl. exact Hsp2'. }
    rewrite Hmid. rewrite span_all by exact Hnl. reflexivity. }
  rewrite Hg. destruct (decide (indep <> indep)) as [Hn|_]; [contradiction|]. reflexivity.
Qed.

(** X8. A line of the grammar parses to what sympy makes of its two parts.
    For a line made of optional whitespace, the letter d, an alphanumeric
    name, /d, the expected independent variable, optional whitespace, any
    number of = signs, optional whitespace, an expression text and optional
    trailing whitespace, [parse_de] returns [sympy.var] of the name and
    [sympify] of the text, unchanged.  The text starts and ends with a
    character that is not whitespace, does not start with =, has no newline,
    and is set off from the variable. *)
Theorem parse_de_grammar (ws VAR indep sp1 eqs sp2 EXPR ws' : string) :
  all_chars is_space ws = true ->
  all_chars is_alnum VAR = true ->
  all_chars is_alnum indep = true ->
  all_chars is_space sp1 = true ->
  all_chars (Ascii.eqb "=") eqs = true ->
  all_chars is_space sp2 = true ->
  starts_outside is_alnum (sp1 +:+ eqs +:+ sp2 +:+ EXPR) = true ->
  EXPR <> EmptyString ->
  starts_outside is_space EXPR = true ->
  starts_outside (Ascii.eqb "=") EXPR = true ->
  rstrip EXPR = EXPR ->
  all_chars (fun c => negb (Ascii.eqb c newline)) EXPR = true ->
  all_chars is_space ws' = true ->
  parse_de (ws +:+ "d" +:+ VAR +:+ "/d" +:+ indep +:+ sp1 +:+ eqs +:+ sp2 +:+ EXPR +:+ ws')
           indep
  = (v <- var VAR ;; e <- sympify EXPR ;; Ok (v, e)).
Proof. apply parse_de_Ok_aux. Qed.

Lemma parse_de_no_match_aux (s indep : string) :
  starts_outside (Ascii.eqb "d") (lstrip s) = true -> parse_de s indep = Raise AttributeError.
Proof.
  intros Hs. unfold parse_de, strip.
  pose proof (rstrip_starts_outside (Ascii.eqb "d") (lstrip s) Hs) as Hs'.
  destruct (rstrip (lstrip s)) as [|c r]; [reflexivity|].
  simpl in Hs'. unfold re_match_de.
  destruct (Ascii.eqb_spec "d" c) as [<-|Hc]; [discriminate|].
  destruct c as [[] [] [] [] [] [] [] []]; try reflexivity. contradiction.
Qed.

(** X9. A line that is blank, or whose first character after the leading
    whitespace is not the letter d, does not match the pattern, and
    [parse_de] raises [AttributeError] (it asks the missing match for its
    groups), not the [ValueError] of a wrong independent variable. *)
Theorem parse_de_no_match (s indep : string) :
  starts_outside (Ascii.eqb "d") (lstrip s) = true -> parse_de s indep = Raise AttributeError.
Proof. apply parse_de_no_match_aux. Qed.

End ExtrasParsing.

(** ** More on dict *)

Lemma mapM_first_failure {A B} (f : A -> result B) (l1 l2 : list A) (x : A) (e : exn) :
  Forall (fun a => exists b, f a = Ok b) l1 -> f x = Raise e ->
  mapM f (l1 ++ x :: l2) = Raise e.
Proof.
  intros Hl1 Hx. induction Hl1 as [|a l1 [b Hb] _ IH]; simpl.
  - rewrite Hx. reflexivity.
  - rewrite Hb. simpl. rewrite IH. reflexivity.
Qed.

Section DictFacts2.
Context `{Sym : Sympy}.

Lemma dict_get_set_other (k k' : Symbol) (v : Expr) (d : list (Symbol * Expr)) :
  k' <> k -> dict_get k (dict_set k' v d) = dict_get k d.
Proof.
  intros Hne. induction d as [|[k0 v0] d IH]; simpl.
  - rewrite decide_False by exact Hne. reflexivity.
  - destruct (decide (k0 = k')) as [->|Hk0]; simpl.
    + rewrite !decide_False by exact Hne. reflexivity.
    + destruct (decide (k0 = k)); [reflexivity|exact IH].
Qed.

Lemma dict_get_app (k : Symbol) (d1 d2 : list (Symbol * Expr)) :
  dict_get k (d1 ++ d2) = match dict_get k d1 with Some v => Some v | None => dict_get k d2 end.
Proof.
  induction d1 as [|[k0 v0] d1 IH]; simpl; [reflexivity|].
  destruct (decide (k0 = k)); [reflexivity|exact IH].
Qed.

Lemma fold_dict_set_get (k : Symbol) (l acc : list (Symbol * Expr)) :
  dict_get k (fold_left (fun d kv => dict_set kv.1 kv.2 d) l acc)
  = match dict_get k (rev l) with Some v => Some v | None => dict_get k acc end.
Proof.
  revert acc. induction l as [|[k0 v0] l IH]; intros acc; simpl; [reflexivity|].
  rewrite IH, dict_get_app. destruct (dict_get k (rev l)); [reflexivity|]. simpl.
  destruct (decide (k0 = k)) as [->|Hne].
  - apply dict_get_set.
  - apply dict_get_set_other, Hne.
Qed.

(** Reading [dict(pairs)]: the last pair with the key counts. *)
Lemma dict_get_dict (k : Symbol) (pairs : list (Symbol * Expr)) :
  dict_get k (dict pairs) = dict_get k (rev pairs).
Proof.
  unfold dict. rewrite fold_dict_set_get. destruct (dict_get k (rev pairs)); reflexivity.
Qed.

End DictFacts2.

Section ExtrasEquations.
Context `{Sym : Sympy} `{!Helpers} `{!PyDict}.

(** ** Building a system from equations, continued *)

Lemma init_default (vs : list Symbol) (ds : list (option Expr)) (iv0 : option Symbol)
    (iv : Symbol) :
  indep_or_default iv0 = Ok iv -> __init__ vs ds iv0 = __init__ vs ds (Some iv).
Proof. intros Hiv. unfold __init__. rewrite Hiv. reflexivity. Qed.

Lemma strip_all_space (ws : string) : all_chars is_space ws = true -> strip ws = EmptyString.
Proof.
  intros Hws. unfold strip.
  assert (Hl : lstrip ws = EmptyString).
  { induction ws as [|c ws IH]; [reflexivity|]. simpl in *.
    apply andb_prop in Hws as [Hc Hws]. rewrite Hc. apply IH, Hws. }
  rewrite Hl. reflexivity.
Qed.

(** X10. [from_equations] raises the error of the first line that does not
    parse: when the lines before it parse and [parse_de] raises on it, that
    exception is what the caller gets, and the lines after it are not
    looked at. *)
Theorem from_equations_first_error (equations : string + list string) (iv0 : option Symbol)
    (iv : Symbol) (l1 l2 : list string) (line : string) (e : exn) :
  indep_or_default iv0 = Ok iv ->
  equation_lines equations = l1 ++ line :: l2 ->
  Forall (fun l => exists p, parse_de l "t" = Ok p) l1 ->
  parse_de line "t" = Raise e ->
  from_equations equations iv0 = Raise e.
Proof.
  intros Hiv Hlines Hl1 Hline. unfold from_equations. rewrite Hiv. simpl.
  rewrite Hlines, (mapM_first_failure _ l1 l2 line e Hl1 Hline). reflexivity.
Qed.

(** X11. An empty or blank text is not an empty set of equations:
    stripped and split it is one empty line, which does not match, and
    [from_equations] raises [AttributeError]. *)
Theorem from_equations_blank_text (ws : string) (iv0 : option Symbol) (iv : Symbol) :
  indep_or_default iv0 = Ok iv ->
  all_chars is_space ws = true ->
  from_equations (inl ws) iv0 = Raise AttributeError.
Proof.
  intros Hiv Hws. unfold from_equations. rewrite Hiv. simpl.
  rewrite (strip_all_space ws Hws). reflexivity.
Qed.

(** What a call that returned has gone through. *)
Lemma from_equations_inv (equations : string + list string) (iv0 : option Symbol)
    (self : ODESystem) :
  from_equations equations iv0 = Ok self ->
  exists iv pairs t0,
    indep_or_default iv0 = Ok iv
    /\ mapM (fun line => parse_de line "t") (equation_lines equations) = Ok pairs
    /\ dict_get iv (dict pairs) = None
    /\ var "t" = Ok t0
    /\ __init__ (_variables self) (_derivatives self) (Some t0) = Ok self
    /\ _derivatives self
       = map (fun v => dict_get v (dict_set iv (Integer 1) (dict pairs))) (_variables self).
Proof.
  unfold from_equations. intros Hcall.
  apply bind_Ok in Hcall as (iv & Hiv & Hcall). apply bind_Ok in Hcall as (pairs & Hp & Hcall).
  case_bool_decide as Hget; [|discriminate].
  exists iv, pairs.
  destruct (var "t") as [t0|e] eqn:Ht.
  2:{ unfold __init__, indep_or_default in Hcall. rewrite Ht in Hcall. discriminate. }
  exists t0. rewrite (init_default _ _ None t0) in Hcall by exact Ht.
  pose proof Hcall as Hrec. apply init_Ok_iff in Hrec as (-> & _). simpl.
  repeat split; assumption || reflexivity.
Qed.

(** X12. [from_equations] works in [t] whatever [indep_var] it was given:
    the lines are parsed against the name t, the class is called without an
    independent variable, and so the instance returned has [sympy.var('t')]
    as its independent variable.  It satisfies what the class checks: that
    variable is among the variables and its derivative reads 1, and there
    are as many derivatives as variables. *)
Theorem from_equations_in_t (equations : string + list string) (iv0 : option Symbol)
    (self : ODESystem) :
  from_equations equations iv0 = Ok self ->
  var "t" = Ok (indep_var self)
  /\ indep_var self ∈ variables self
  /\ length (variables self) = length (_derivatives self)
  /\ exists i, index (indep_var self) (variables self) = Ok i
               /\ derivatives self !! i = Some (Integer 1).
Proof.
  intros Hcall.
  destruct (from_equations_inv equations iv0 self Hcall)
    as (iv & pairs & t0 & _ & _ & _ & Ht & Hinit & _).
  apply init_Ok_iff in Hinit as (Hrec & Hin & Hlen & i & Hi & Hone).
  assert (Ht0 : indep_var self = t0) by (rewrite Hrec; reflexivity).
  rewrite Ht0. unfold variables. eauto 10.
Qed.

(** The derivatives [from_equations] stores. *)
Lemma from_equations_derivatives_aux (equations : string + list string)
    (iv0 : option Symbol) (self : ODESystem) (iv : Symbol) (pairs : list (Symbol * Expr)) :
  from_equations equations iv0 = Ok self ->
  indep_or_default iv0 = Ok iv ->
  mapM (fun line => parse_de line "t") (equation_lines equations) = Ok pairs ->
  forall i v, variables self !! i = Some v ->
    _derivatives self !! i
    = Some (if decide (v = iv) then Some (Integer 1) else dict_get v (rev pairs)).
Proof.
  intros Hcall Hiv Hp i v Hv.
  destruct (from_equations_inv equations iv0 self Hcall)
    as (iv' & pairs' & t0 & Hiv' & Hp' & _ & _ & _ & Hds).
  rewrite Hiv in Hiv'. injection Hiv' as <-. rewrite Hp in Hp'. injection Hp' as <-.
  rewrite Hds, list_lookup_fmap. unfold variables in Hv. rewrite Hv. simpl. f_equal.
  destruct (decide (v = iv)) as [->|Hne].
  - apply dict_get_set.
  - rewrite dict_get_set_other by congruence. apply dict_get_dict.
Qed.

(** X13. In the instance [from_equations] returns, the derivative stored for
    a variable is 1 for the independent variable of the call, the
    expression of the last equation written for the variable otherwise, and
    [None] (not specified) when no equation is for it. *)
Theorem from_equations_derivatives (equations : string + list string)
    (iv0 : option Symbol) (self : ODESystem) (iv : Symbol) (pairs : list (Symbol * Expr)) :
  from_equations equations iv0 = Ok self ->
  indep_or_default iv0 = Ok iv ->
  mapM (fun line => parse_de line "t") (equation_lines equations) = Ok pairs ->
  forall i v, variables self !! i = Some v ->
    _derivatives self !! i
    = Some (if decide (v = iv) then Some (Integer 1) else dict_get v (rev pairs)).
Proof. apply from_equations_derivatives_aux. Qed.

(** X19. The [indep_var] argument of [from_equations] does not reach the
    class.  When it is another variable than [sympy.var('t')] (and sympy's 0
    and 1 differ), [from_equations] returns only if the equations
    themselves say that the derivative of t is 1: the last equation for t
    parses to the expression 1.  Without such an equation the call
    raises. *)
Theorem from_equations_other_indep (equations : string + list string)
    (iv0 : option Symbol) (self : ODESystem) (iv t0 : Symbol)
    (pairs : list (Symbol * Expr)) :
  Integer 0 <> Integer 1 ->
  from_equations equations iv0 = Ok self ->
  indep_or_default iv0 = Ok iv ->
  var "t" = Ok t0 ->
  iv <> t0 ->
  mapM (fun line => parse_de line "t") (equation_lines equations) = Ok pairs ->
  dict_get t0 (rev pairs) = Some (Integer 1).
Proof.
  intros H01 Hcall Hiv Ht Hne Hp.
  destruct (from_equations_inv equations iv0 self Hcall)
    as (iv' & pairs' & t0' & _ & _ & _ & Ht' & Hinit & _).
  rewrite Ht in Ht'. injection Ht' as <-.
  apply init_Ok_iff in Hinit as (_ & _ & _ & i & Hi & Hone).
  apply index_lookup in Hi.
  pose proof (from_equations_derivatives_aux equations iv0 self iv pairs Hcall Hiv Hp i t0 Hi)
    as Hstored.
  rewrite decide_False in Hstored by congruence.
  unfold derivatives in Hone. rewrite list_lookup_fmap, Hstored in Hone. simpl in Hone.
  destruct (dict_get t0 (rev pairs)) as [e|]; [|congruence].
  injection Hone as ->. reflexivity.
Qed.

End ExtrasEquations.

(** ** Lines *)

Lemma string_app_assoc (a b c : string) : (a +:+ b) +:+ c = a +:+ b +:+ c.
Proof.
  induction a as [|x a IH]; [reflexivity|].
  change (String x ((a +:+ b) +:+ c) = String x (a +:+ b +:+ c)). rewrite IH. reflexivity.
Qed.

Lemma string_app_empty_r (a : string) : a +:+ EmptyString = a.
Proof.
  induction a as [|x a IH]; [reflexivity|].
  change (String x (a +:+ EmptyString) = String x a). rewrite IH. reflexivity.
Qed.

Lemma all_chars_app (p : ascii -> bool) (a b : string) :
  all_chars p (a +:+ b) = all_chars p a && all_chars p b.
Proof.
  induction a as [|x a IH]; [reflexivity|].
  change (p x && all_chars p (a +:+ b) = p x && all_chars p a && all_chars p b).
  rewrite IH. apply andb_assoc.
Qed.

Lemma all_chars_rstrip (p : ascii -> bool) (s : string) :
  all_chars p s = true -> all_chars p (rstrip s) = true.
Proof.
  induction s as [|c s IH]; [reflexivity|]. simpl. intros Hs.
  apply andb_prop in Hs as [Hc Hs]. specialize (IH Hs).
  destruct (rstrip s); [destruct (is_space c); simpl; rewrite ?Hc; reflexivity|].
  simpl in *. rewrite Hc. exact IH.
Qed.

Lemma concat_cons (sep l : string) (xs : list string) :
  xs <> [] -> String.concat sep (l :: xs) = l +:+ sep +:+ String.concat sep xs.
Proof. destruct xs; [contradiction|reflexivity]. Qed.

Lemma concat_snoc (ls : list string) (x : string) :
  String.concat (String newline EmptyString) (ls ++ [x]) = lines_prefix ls +:+ x.
Proof.
  induction ls as [|l ls IH]; [reflexivity|].
  change ((l :: ls) ++ [x]) with (l :: (ls ++ [x])).
  rewrite concat_cons by (destruct ls; discriminate). rewrite IH.
  change (lines_prefix (l :: ls)) with (l +:+ String newline (lines_prefix ls)).
  rewrite string_app_assoc. reflexivity.
Qed.

Lemma split_lines_clean (a : string) :
  all_chars not_newline a = true -> split_lines a = [a].
Proof.
  induction a as [|c a IH]; [reflexivity|]. simpl. intros Ha.
  apply andb_prop in Ha as [Hc Ha]. unfold not_newline in Hc.
  destruct (Ascii.eqb c newline); [discriminate|]. rewrite (IH Ha). reflexivity.
Qed.

Lemma split_lines_app_newline (a b : string) :
  all_chars not_newline a = true ->
  split_lines (a +:+ String newline b) = a :: split_lines b.
Proof.
  induction a as [|c a IH]; intros Ha.
  - change (EmptyString +:+ String newline b) with (String newline b).
    cbn [split_lines]. destruct (Ascii.eqb_spec newline newline); [reflexivity|contradiction].
  - simpl in Ha. apply andb_prop in Ha as [Hc Ha]. unfold not_newline in Hc.
    change (String c a +:+ String newline b) with (String c (a +:+ String newline b)).
    cbn [split_lines]. destruct (Ascii.eqb c newline); [discriminate|].
    rewrite (IH Ha). reflexivity.
Qed.

Lemma split_lines_prefix (ls : list string) (x : string) :
  Forall (fun l => all_chars not_newline l = true) ls ->
  all_chars not_newline x = true ->
  split_lines (lines_prefix ls +:+ x) = ls ++ [x].
Proof.
  intros Hls Hx. induction Hls as [|l ls Hl _ IH]; simpl.
  - apply split_lines_clean, Hx.
  - rewrite string_app_assoc.
    change (String newline (lines_prefix ls) +:+ x)
      with (String newline (lines_prefix ls +:+ x)).
    rewrite (split_lines_app_newline l _ Hl), IH. reflexivity.
Qed.

(** X14. Splitting at newlines undoes joining with newlines: for a list of
    lines that is not empty and whose lines hold no newline,
    ['\n'.join(lines).split('\n')] is [lines].  This is how the text of
    [__repr__] goes back into the lines [from_equations] reads. *)
Theorem split_join_round_trip (ls : list string) :
  ls <> [] ->
  Forall (fun l => all_chars not_newline l = true) ls ->
  split_lines (String.concat (String newline EmptyString) ls) = ls.
Proof.
  intros Hne Hls. destruct ls as [|l ls'] using rev_ind; [contradiction|].
  apply Forall_app in Hls as [Hls Hl]. inversion Hl; subst.
  rewrite concat_snoc. apply split_lines_prefix; assumption.
Qed.

Section ExtrasRepr.
Context `{Sym : Sympy} `{!Helpers} `{!PyDict} `{!SympyStr}.

(** ** Printing and parsing *)

(** X15. A line printed by [__repr__] parses back to its two parts: when
    the names of the variable and of the independent variable are
    alphanumeric and the printed expression is a clean text (not empty, no
    newline, no whitespace at either end, not starting with =),
    [parse_de] on the line returns [sympy.var] of the printed name and
    [sympify] of the printed expression. *)
Theorem repr_line_parses (self : ODESystem) (v : Symbol) (e : Expr) :
  all_chars is_alnum (str v) = true ->
  all_chars is_alnum (str (indep_var self)) = true ->
  str_expr e <> EmptyString ->
  starts_outside is_space (str_expr e) = true ->
  starts_outside (Ascii.eqb "=") (str_expr e) = true ->
  rstrip (str_expr e) = str_expr e ->
  all_chars (fun c => negb (Ascii.eqb c newline)) (str_expr e) = true ->
  parse_de (repr_line self (v, e)) (str (indep_var self))
  = (v' <- var (str v) ;; e' <- sympify (str_expr e) ;; Ok (v', e')).
Proof.
  intros Hv Hiv Hne Hsp Heq Hr Hnl.
  pose proof (parse_de_Ok_aux EmptyString (str v) (str (indep_var self)) " " "=" " "
                (str_expr e) EmptyString eq_refl Hv Hiv eq_refl eq_refl eq_refl eq_refl
                Hne Hsp Heq Hr Hnl eq_refl) as Hparse.
  rewrite string_app_empty_r in Hparse. exact Hparse.
Qed.

Lemma parse_de_rstrip (s indep : string) : parse_de (rstrip s) indep = parse_de s indep.
Proof. unfold parse_de. rewrite strip_rstrip. reflexivity. Qed.

Lemma mapM_last_ext {A B} (f : A -> result B) (l : list A) (a b : A) :
  f a = f b -> mapM f (l ++ [a]) = mapM f (l ++ [b]).
Proof.
  intros Hab. induction l as [|x l IH]; simpl; [rewrite Hab; reflexivity|].
  rewrite IH. reflexivity.
Qed.

Lemma from_equations_key_present (equations : string + list string) (iv0 : option Symbol)
    (iv : Symbol) (pairs : list (Symbol * Expr)) :
  indep_or_default iv0 = Ok iv ->
  mapM (fun line => parse_de line "t") (equation_lines equations) = Ok pairs ->
  iv ∈ map fst pairs ->
  from_equations equations iv0 = Raise AssertionError.
Proof.
  intros Hiv Hp Hin. unfold from_equations. rewrite Hiv. simpl. rewrite Hp. simpl.
  case_bool_decide as Hget; [|reflexivity].
  apply dict_get_None in Hget. rewrite dict_keys in Hget. contradiction.
Qed.

(** The lines [from_equations] reads in the text of [__repr__]: the lines
    printed, the last one without its trailing whitespace. *)
Lemma equation_lines_repr (self : ODESystem) (ls : list string) (last : string) :
  map (repr_line self) (zip (variables self) (derivatives self)) = ls ++ [last] ->
  Forall (fun l => all_chars not_newline l = true) (ls ++ [last]) ->
  equation_lines (inl (__repr__ self)) = ls ++ [rstrip last].
Proof.
  intros Hlines Hclean. unfold equation_lines, __repr__. cbv zeta. rewrite Hlines.
  apply Forall_app in Hclean as [Hls Hlast]. inversion Hlast as [|? ? Hl _]; subst.
  assert (Hd : exists r, last = String "d" r).
  { assert (Hin : last ∈ map (repr_line self) (zip (variables self) (derivatives self))).
    { rewrite Hlines. apply elem_of_app. right. left. }
    apply list_elem_of_fmap in Hin as (item & -> & _). eexists. reflexivity. }
  destruct Hd as [r ->].
  assert (Hfirst : exists r0, lines_prefix ls +:+ String "d" r = String "d" r0).
  { destruct ls as [|l ls']; [eexists; reflexivity|].
    assert (Hin : l ∈ map (repr_line self) (zip (variables self) (derivatives self))).
    { rewrite Hlines. left. }
    apply list_elem_of_fmap in Hin as (item & -> & _). eexists. reflexivity. }
  destruct Hfirst as [r0 Hfirst].
  rewrite concat_snoc. unfold strip.
  assert (Hl0 : lstrip (lines_prefix ls +:+ String "d" r) = lines_prefix ls +:+ String "d" r).
  { rewrite Hfirst. reflexivity. }
  rewrite Hl0.
  assert (Hnz : rstrip (String "d" r) <> EmptyString).
  { rewrite (rstrip_cons "d") by reflexivity. discriminate. }
  rewrite (rstrip_app_nonempty _ _ Hnz).
  apply split_lines_prefix; [exact Hls|]. apply all_chars_rstrip, Hl.
Qed.

(** X16. The text of [__repr__] is not an input of [from_equations]: it
    holds a line for the independent variable itself.  For an instance
    whose independent variable is [sympy.var('t')], is named t and is among
    the variables, with as many derivatives as variables and nothing printed
    over several lines, [from_equations] on [__repr__] of the instance
    raises. *)
Theorem from_equations_of_repr_raises (self : ODESystem) (iv0 : option Symbol) :
  length (_variables self) = length (_derivatives self) ->
  indep_var self ∈ variables self ->
  str (indep_var self) = "t" ->
  var "t" = Ok (indep_var self) ->
  indep_or_default iv0 = Ok (indep_var self) ->
  Forall (fun v => all_chars not_newline (str v) = true) (variables self) ->
  Forall (fun e => all_chars not_newline (str_expr e) = true) (derivatives self) ->
  exists err, from_equations (inl (__repr__ self)) iv0 = Raise err.
Proof.
  intros Hlen Hin Hname Hvar Hiv0 Hvs Hes.
  set (lines := map (repr_line self) (zip (variables self) (derivatives self))).
  assert (Hclean : Forall (fun l => all_chars not_newline l = true) lines).
  { apply Forall_forall. intros l Hl. apply list_elem_of_fmap in Hl as ([v e] & -> & Hve).
    apply list_elem_of_lookup in Hve as (i & Hi). apply zip_lookup_Some in Hi as [Hv He].
    pose proof (proj1 (Forall_forall _ _) Hvs v (list_elem_of_lookup_2 _ _ _ Hv)) as Hv'.
    pose proof (proj1 (Forall_forall _ _) Hes e (list_elem_of_lookup_2 _ _ _ He)) as He'.
    unfold repr_line. rewrite !all_chars_app, Hname. simpl fst. simpl snd.
    simpl in Hv', He'. rewrite Hv', He'. reflexivity. }
  apply list_elem_of_lookup in Hin as (i & Hi).
  assert (Hd : exists e, derivatives self !! i = Some e).
  { apply lookup_lt_is_Some_2. unfold derivatives. rewrite length_map, <- Hlen.
    eapply lookup_lt_Some, Hi. }
  destruct Hd as [e He].
  assert (Hline : lines !! i = Some (repr_line self (indep_var self, e))).
  { unfold lines. rewrite list_lookup_fmap.
    rewrite (proj2 (zip_lookup_Some _ _ i (indep_var self) e) (conj Hi He)). reflexivity. }
  assert (Hparse : exists g3, parse_de (repr_line self (indep_var self, e)) "t"
                              = (e' <- sympify g3 ;; Ok (indep_var self, e'))).
  { unfold repr_line, parse_de. simpl fst. simpl snd. rewrite Hname.
    destruct (re_match_de_groups "t" "t" (" = " +:+ str_expr e) eq_refl eq_refl eq_refl)
      as (g3 & Hg & _).
    rewrite Hg. exists g3. destruct (decide ("t" <> "t")) as [Hn|_]; [contradiction|].
    rewrite Hvar. reflexivity. }
  destruct Hparse as [g3 Hparse].
  assert (Hne : lines <> []) by (intros Hnil; rewrite Hnil in Hline; discriminate).
  destruct (exists_last Hne) as (ls0 & l0 & Hsplit).
  rewrite Hsplit in Hclean, Hline.
  assert (Hlines : equation_lines (inl (__repr__ self)) = ls0 ++ [rstrip l0])
    by (apply equation_lines_repr; [exact Hsplit|exact Hclean]).
  assert (HmapM : mapM (fun line => parse_de line "t") (equation_lines (inl (__repr__ self)))
                  = mapM (fun line => parse_de line "t") (ls0 ++ [l0])).
  { rewrite Hlines. apply mapM_last_ext, parse_de_rstrip. }
  destruct (mapM (fun line => parse_de line "t") (ls0 ++ [l0])) as [pairs|err] eqn:Hp.
  - exists AssertionError. apply (from_equations_key_present _ _ _ pairs Hiv0 HmapM).
    apply mapM_Ok_Forall2 in Hp.
    destruct (Forall2_lookup_l _ _ _ _ _ Hp Hline) as (p & Hpi & Hpp).
    rewrite Hparse in Hpp. apply bind_Ok in Hpp as (e' & _ & Hpp). injection Hpp as <-.
    apply list_elem_of_fmap. exists (indep_var self, e'). split; [reflexivity|].
    eapply list_elem_of_lookup_2, Hpi.
  - exists err. unfold from_equations. rewrite Hiv0. cbn [bind]. rewrite HmapM. reflexivity.
Qed.

End ExtrasRepr.

Section ExtrasMapping.
Context `{Sym : Sympy} `{!Helpers} `{!PyDict}.

(** ** The derivative mapping *)

Lemma dict_get_Some_NoDup (k : Symbol) (v : Expr) (d : list (Symbol * Expr)) :
  NoDup (map fst d) -> dict_get k d = Some v <-> (k, v) ∈ d.
Proof.
  induction d as [|[k0 v0] d IH]; simpl; intros Hnd.
  - split; [discriminate|]. intros Hin. inversion Hin.
  - apply NoDup_cons in Hnd as [Hk0 Hnd]. rewrite elem_of_cons.
    destruct (decide (k0 = k)) as [->|Hne].
    + split.
      * intros Heq. injection Heq as ->. left. reflexivity.
      * intros [Heq|Hin]; [congruence|]. exfalso. apply Hk0.
        apply list_elem_of_fmap. exists (k, v). split; [reflexivity|exact Hin].
    + rewrite (IH Hnd). split; [auto|]. intros [Heq|Hin]; [congruence|exact Hin].
Qed.

Lemma filter_specified_elem (vs : list Symbol) (ds : list (option Expr))
    (y : Symbol) (e : Expr) :
  (y, e) ∈ filter_specified (zip vs ds)
  <-> exists i, vs !! i = Some y /\ ds !! i = Some (Some e).
Proof.
  revert ds. induction vs as [|v vs IH]; intros [|d ds]; simpl.
  - split; [intros Hn; inversion Hn|]. intros (i & Hi & _). destruct i; discriminate.
  - split; [intros Hn; inversion Hn|]. intros (i & Hi & _). destruct i; discriminate.
  - split; [intros Hn; inversion Hn|]. intros (i & _ & Hi). destruct i; discriminate.
  - rewrite elem_of_app, IH. split.
    + intros [Hy|(i & Hv & Hd)].
      * destruct d as [e0|]; simpl in Hy; [|inversion Hy].
        apply list_elem_of_singleton in Hy. injection Hy as -> ->.
        exists 0%nat. split; reflexivity.
      * exists (S i). split; assumption.
    + intros ([|i] & Hv & Hd); simpl in Hv, Hd.
      * injection Hv as ->. injection Hd as ->. left. simpl. left.
      * right. exists i. split; assumption.
Qed.

(** X17. Reading the derivative mapping.  A variable is missing from
    [derivative_dict] exactly when no position of it has a specified
    derivative; and when the variables are pairwise distinct, the mapping
    gives for a variable the derivative stored at its position. *)
Theorem derivative_dict_lookup (self : ODESystem) (y : Symbol) :
  (dict_get y (derivative_dict self) = None <->
     forall i e, variables self !! i = Some y -> _derivatives self !! i <> Some (Some e))
  /\ (NoDup (variables self) ->
      forall e, dict_get y (derivative_dict self) = Some e <->
        exists i, variables self !! i = Some y /\ _derivatives self !! i = Some (Some e)).
Proof.
  split.
  - rewrite dict_get_None. unfold derivative_dict. rewrite dict_keys, filter_specified_keys.
    split.
    + intros Hno i e Hv Hd. apply Hno. exists i, e. split; assumption.
    + intros Hno (i & e & Hv & Hd). exact (Hno i e Hv Hd).
  - intros Hnd e. unfold derivative_dict.
    rewrite (dict_NoDup _ (filter_specified_NoDup _ _ Hnd)).
    rewrite (dict_get_Some_NoDup _ _ _ (filter_specified_NoDup _ _ Hnd)).
    apply filter_specified_elem.
Qed.

(** X18. In an instance built by the class, when sympy's 0 and 1 differ,
    the derivative of the independent variable is stored as the expression
    1, never as not specified; so the independent variable is a key of the
    derivative mapping and [power_matrix] always has a block to stack. *)
Theorem init_indep_specified (vs : list Symbol) (ds : list (option Expr))
    (iv0 : option Symbol) (self : ODESystem) :
  Integer 0 <> Integer 1 ->
  __init__ vs ds iv0 = Ok self ->
  (exists i, index (indep_var self) (variables self) = Ok i
             /\ _derivatives self !! i = Some (Some (Integer 1)))
  /\ indep_var self ∈ map fst (derivative_dict self)
  /\ (dict_order_lawful -> iteritems (derivative_dict self) <> []).
Proof.
  intros H01 Hinit.
  destruct (indep_or_default iv0) as [iv|err] eqn:Hiv.
  2:{ unfold __init__ in Hinit. rewrite Hiv in Hinit. discriminate. }
  rewrite (init_default vs ds iv0 iv Hiv) in Hinit.
  apply init_Ok_iff in Hinit as (-> & Hin & Hlen & i & Hi & Hone).
  unfold indep_var, variables. simpl.
  unfold derivatives in Hone. simpl in Hone. rewrite list_lookup_fmap in Hone.
  destruct (ds !! i) as [[e|]|] eqn:Hd; simpl in Hone; try congruence.
  injection Hone as ->.
  assert (Hkey : iv ∈ map fst (derivative_dict
            {| _variables := vs; _derivatives := ds; _indep_var := iv |})).
  { unfold derivative_dict. rewrite dict_keys. apply filter_specified_keys.
    exists i, (Integer 1). split; [apply index_lookup, Hi|exact Hd]. }
  split; [exists i; auto|]. split; [exact Hkey|].
  intros Hlaw Hnil. unfold iteritems in Hnil.
  pose proof (Hlaw (derivative_dict {| _variables := vs; _derivatives := ds;
                                       _indep_var := iv |})) as Hperm.
  rewrite Hnil in Hperm. apply Permutation_nil in Hperm. rewrite Hperm in Hkey.
  inversion Hkey.
Qed.

End ExtrasMapping.

Module ExtraExamples.
Import Mono MonoStr Samples.

Lemma growth_NoDup : NoDup (map str (variables growth)).
Proof. apply (bool_decide_unpack _). vm_compute. exact I. Defined.

Lemma growth_contract (A : ndarray) : power_matrix growth = Ok A -> hnf_row_contract A.
Proof.
  intros HA. vm_compute in HA. injection HA as <-.
  intros H U HU. vm_compute in HU. injection HU as <- <-.
  split; [repeat constructor|reflexivity].
Defined.

Lemma reorder_two_outcomes_witness :
  (Permutation (map str [t; x]) (map str (variables growth)) /\
     exists self', reorder_variables [t; x] growth = (Ok tt, self') /\
       _indep_var self' = _indep_var growth /\
       length (_variables self') = length (_derivatives self'))
  \/ (~ Permutation (map str [t; x]) (map str (variables growth)) /\
      reorder_variables [t; x] growth = (Raise AssertionError, growth)).
Proof. exact (reorder_two_outcomes [t; x] growth eq_refl). Defined.

Lemma reorder_moves_pairs_witness :
  Permutation (zip (_variables growth_swapped) (_derivatives growth_swapped))
              (zip (_variables growth) (_derivatives growth))
  /\ map str (variables growth_swapped) = map str [t; x].
Proof. exact (reorder_moves_pairs growth growth_swapped [t; x] growth_NoDup eq_refl eq_refl). Defined.

Lemma reorder_keeps_invariant_witness :
  __init__ (_variables growth_swapped) (_derivatives growth_swapped)
           (Some (_indep_var growth_swapped)) = Ok growth_swapped.
Proof.
  exact (reorder_keeps_invariant [x; t] [Some (of_symbol x); Some (of_Z 1)] (Some t)
           growth growth_swapped [t; x] eq_refl growth_NoDup eq_refl).
Defined.

Lemma power_matrix_columns_witness :
  (1%nat = 0%nat /\ Arr2 1 [[1]; [-1]] = Arr1 [])
  \/ (1%nat <> 0%nat /\ shape1 (Arr2 1 [[1]; [-1]]) = Ok 1%nat
      /\ well_shaped (Arr2 1 [[1]; [-1]])
      /\ ((forall mon v, monomial_to_powers mon [x; y] = Ok v -> length v = length [x; y]) ->
          shape0 (Arr2 1 [[1]; [-1]]) = length [x; y])).
Proof.
  exact (power_matrix_columns (Sym := sympy) (m_div (of_symbol x) (of_symbol y)) [x; y]
           (of_Z 0) [of_symbol x] (of_Z 0) [of_symbol y] (Arr2 1 [[1]; [-1]])
           eq_refl eq_refl eq_refl).
Defined.

Lemma power_matrix_of_matrices_witness :
  exists blocks,
    mapM (block growth) (iteritems (derivative_dict growth)) = Ok blocks
    /\ Forall (matrix_block (length (variables growth))) blocks
    /\ shape1 (Arr2 2 [[0; 0]; [1; 0]]) = Ok (list_sum (map arr2_ncols blocks))
    /\ list_sum (map arr2_ncols blocks) <> 0%nat
    /\ shape0 (Arr2 2 [[0; 0]; [1; 0]]) = length (variables growth)
    /\ well_shaped (Arr2 2 [[0; 0]; [1; 0]]).
Proof.
  apply (power_matrix_of_matrices growth (Arr2 2 [[0; 0]; [1; 0]])); [discriminate|reflexivity].
Defined.

Lemma zero_rows_at_bottom_witness :
  growth_scaling = slice_last 1 (Arr2 2 [[0; 1]; [1; 0]])
  /\ Forall (fun row => all_zero row = false) [[1; 0]]
  /\ Forall (fun row => all_zero row = true) [[0; 0]].
Proof.
  assert (HA : power_matrix growth = Ok (Arr2 2 [[0; 0]; [1; 0]])) by reflexivity.
  assert (HU : hnf_row (Arr2 2 [[0; 0]; [1; 0]])
               = Ok (Arr2 2 [[1; 0]; [0; 0]], Arr2 2 [[0; 1]; [1; 0]])) by reflexivity.
  assert (HM : maximal_scaling_matrix growth = Ok growth_scaling) by reflexivity.
  destruct (zero_rows_at_bottom growth growth_scaling _ _ _ HA HU HM)
    as (HM' & Htop & Hbottom & _); [discriminate|].
  split; [exact HM'|]. split; [exact Htop|exact Hbottom].
Defined.

Lemma scaling_rows_annihilate_blocks_witness :
  exists c rows, block growth (x, of_symbol x) = Ok (Arr2 c rows) /\
    forall row, row ∈ iter_rows growth_scaling -> lincomb c row rows = repeat 0 c.
Proof.
  apply (scaling_rows_annihilate_blocks growth growth_scaling);
    [discriminate|exact growth_contract|reflexivity|left].
Defined.

Lemma parse_de_grammar_witness :
  parse_de ("" +:+ "d" +:+ "x" +:+ "/d" +:+ "t" +:+ " " +:+ "=" +:+ " " +:+ "a" +:+ " ") "t"
  = (v <- var "x" ;; e <- sympify "a" ;; Ok (v, e)).
Proof.
  apply (parse_de_grammar (Sym := sympy) "" "x" "t" " " "=" " " "a" " ");
    try reflexivity. discriminate.
Defined.

Lemma parse_de_no_match_witness : parse_de "x = 1" "t" = Raise AttributeError.
Proof. apply (parse_de_no_match (Sym := sympy) "x = 1" "t"). reflexivity. Defined.

Lemma from_equations_first_error_witness :
  from_equations (inr ["dx/dt = a"; "oops"; "dy/ds = 1"]) None = Raise AttributeError.
Proof.
  apply (from_equations_first_error (Sym := sympy) (inr ["dx/dt = a"; "oops"; "dy/ds = 1"])
           None t ["dx/dt = a"] ["dy/ds = 1"] "oops" AttributeError);
    try reflexivity.
  constructor; [|constructor]. eexists. reflexivity.
Defined.

Lemma from_equations_blank_text_witness : from_equations (inl "  ") None = Raise AttributeError.
Proof. apply (from_equations_blank_text (Sym := sympy) "  " None t); reflexivity. Defined.

Lemma from_equations_in_t_witness :
  var "t" = Ok (indep_var shifted)
  /\ indep_var shifted ∈ variables shifted
  /\ length (variables shifted) = length (_derivatives shifted)
  /\ exists i, index (indep_var shifted) (variables shifted) = Ok i
               /\ derivatives shifted !! i = Some (Integer 1).
Proof.
  apply (from_equations_in_t (Sym := sympy) (inr ["dx/dt = a"; "dt/dt = 1"]) (Some y)
           shifted).
  reflexivity.
Defined.

Lemma from_equations_other_indep_witness :
  dict_get t (rev [(x, of_symbol a); (t, of_Z 1)]) = Some (Integer 1).
Proof.
  apply (from_equations_other_indep (Sym := sympy) (inr ["dx/dt = a"; "dt/dt = 1"]) (Some y)
           shifted y t [(x, of_symbol a); (t, of_Z 1)]); try reflexivity; discriminate.
Defined.

Lemma from_equations_derivatives_witness :
  _derivatives forced !! 0%nat
  = Some (if decide (x = t) then Some (Integer 1)
          else dict_get x (rev [(x, of_symbol a)])).
Proof.
  apply (from_equations_derivatives (Sym := sympy) (inl "dx/dt = a") None forced t
           [(x, of_symbol a)]); reflexivity.
Defined.

Lemma split_join_round_trip_witness :
  split_lines (String.concat (String newline EmptyString) ["dx/dt = x"; "dt/dt = 1"])
  = ["dx/dt = x"; "dt/dt = 1"].
Proof.
  apply split_join_round_trip; [discriminate|]. repeat constructor.
Defined.

Lemma repr_line_parses_witness :
  parse_de (repr_line growth (x, of_symbol x)) (str (indep_var growth))
  = (v' <- var (str x) ;; e' <- sympify (str_expr (of_symbol x)) ;; Ok (v', e')).
Proof.
  apply (repr_line_parses (Sym := sympy) growth x (of_symbol x)); try reflexivity.
  discriminate.
Defined.

Lemma from_equations_of_repr_raises_witness :
  exists err, from_equations (inl (__repr__ growth)) None = Raise err.
Proof.
  apply (from_equations_of_repr_raises (Sym := sympy) growth None); try reflexivity.
  - right. left.
  - repeat constructor.
  - repeat constructor.
Defined.

Lemma init_indep_specified_witness :
  (exists i, index (indep_var growth) (variables growth) = Ok i
             /\ _derivatives growth !! i = Some (Some (Integer 1)))
  /\ indep_var growth ∈ map fst (derivative_dict growth)
  /\ (dict_order_lawful -> iteritems (derivative_dict growth) <> []).
Proof.
  apply (init_indep_specified (Sym := sympy) [x; t] [Some (of_symbol x); Some (of_Z 1)]
           (Some t) growth); [discriminate|reflexivity].
Defined.

End ExtraExamples.
